(** * partisan_plot.py: the partisan-bias chart of [PartisanPlot]

    A shallow embedding of [src/partisan_plot.py] and the properties of
    [__init__], [drop_columns], [draw], [__draw_default_parameters] and
    [sign].

    Conventions of the embedding.
    - Python integers are [Z]; the float64 values that [draw] computes
      (vote shares, margins, seat shares) are exact rationals [Q], so that
      rounding error is idealised away.  Votes are integers, hence no NaN
      enters the computation, and a division by zero raises, as it does
      on the Python ints that [iterrows] yields.  A float64 value is a
      rational and the comparisons of the program are exact on them:
      where rounding can change what a property speaks of (a comparison
      of two sums of shares, the sign of a margin, a rounded
      percentage), the property is stated of any table of shares, of any
      Series of margins, or up to the rounding, so that it holds of the
      values that the program computes.
    - An exception is a value of [exn]; each constructor names the Python
      exception and the expression of the source that raises it.
    - matplotlib and [np.linspace] are an external chart surface: every
      call on it is recorded, with its arguments, as a [cmd] of the trace.
    - pandas is a library: [drop] and [sort_values] are embedded from
      their documented behaviour, and the sorting algorithm, which the
      source does not choose, is a parameter of [draw].
    - The mutable lists of the program live in a [heap]; the class
      attribute [default_draw_values] is one of them.
    - Reading the files is left out: an instance holds what [__init__]
      has read, and [drop_columns] takes the labels read from its file. *)

From Stdlib Require Import Ascii QArith Qround Qminmax DecimalString
  DecimalPos DecimalZ Lqa.
From stdpp Require Import gmap strings list sorting.

Local Open Scope Z_scope.

(** ** Python values, exceptions *)

(** The values that travel through [draw]'s keyword arguments. *)
Inductive pyval : Type :=
  | PNone
  | PStr (s : string)
  | PInt (z : Z)
  | PFloat (q : Q).

Definition is_None (v : pyval) : bool :=
  match v with PNone => true | _ => false end.

Inductive exn : Type :=
  (* house_data[c], candidate[c]: column [c] is not in the table *)
  | KeyError_column (c : string)
  (* house_data.drop(labels, axis=1): labels missing from the columns *)
  | KeyError_not_found_in_axis (missing : list string)
  (* self.num_districts[state] *)
  | KeyError_state (state : string)
  (* vote_share.loc[district, party] *)
  | KeyError_district (district : Z)
  (* candidate['candidatevotes'] / candidate['totalvotes'] *)
  | ZeroDivisionError_share
  (* (dem_votes - rep_votes) / (dem_votes + rep_votes) *)
  | ZeroDivisionError_actual_margin
  (* (...).value_counts()[True] *)
  | KeyError_True
  (* partisan_bias read before the scan assigned it *)
  | UnboundLocalError_partisan_bias
  (* self.colors[year] *)
  | KeyError_year (year : Z)
  (* self.default_draw_values[i] *)
  | IndexError_default_draw_values (i : nat)
  (* the six-name unpacking of the returned parameter list *)
  | ValueError_unpack (n : nat).

Inductive result (A : Type) : Type :=
  | Ok (a : A)
  | Raise (e : exn).
Arguments Ok {A} a.
Arguments Raise {A} e.

#[global] Instance result_ret : MRet result := λ A a, Ok a.
#[global] Instance result_bind : MBind result := λ A B f r,
  match r with
  | Ok a => f a
  | Raise e => Raise e
  end.

(** ** sign *)

(** [str(num)] of a Python int. *)
Definition str (num : Z) : string := NilZero.string_of_int (Z.to_int num).

(** [PartisanPlot.sign] *)
Definition sign (num : Z) : string :=
  if num <? 0 then str num else "+" +:+ str num.

(** ** The heap of lists and [__draw_default_parameters] *)

Abbreviation loc := nat (only parsing).
Abbreviation heap := (list (list pyval)) (only parsing).

(** The class attribute [PartisanPlot.default_draw_values] is the first
    list ever allocated. *)
Definition default_draw_values_loc : loc := 0%nat.

Definition default_draw_values : list pyval :=
  [PStr "k"; PInt 200; PStr "-"; PFloat (0.2)%Q; PFloat (0.6)%Q; PInt 11].

(** The heap once the class body has run. *)
Definition class_heap : heap := [default_draw_values].

(** A list display [[a, b, ...]] allocates a new list. *)
Definition alloc (h : heap) (l : list pyval) : loc * heap :=
  (length h, h ++ [l]).

(** [lst[i] = v] on the list stored at [p]. *)
Definition list_setitem (h : heap) (p : loc) (i : nat) (v : pyval) : heap :=
  match h !! p with
  | Some l => <[p := <[i := v]> l]> h
  | None => h
  end.

(** The loop of [__draw_default_parameters]:
    [for i, var in enumerate(default_parameters)], started at index [i],
    with [n] iterations left at most.  Every iteration reads the list at
    [p] anew, as the list iterator does. *)
Fixpoint draw_default_parameters_loop (n : nat) (h : heap) (p : loc) (i : nat)
  : heap * result unit :=
  match n with
  | O => (h, Ok ())
  | S n' =>
    match h !! p ≫= (.!! i) with
    | None => (h, Ok ())
    | Some var =>
      if is_None var then
        match h !! default_draw_values_loc ≫= (.!! i) with
        | Some d => draw_default_parameters_loop n' (list_setitem h p i d) p (S i)
        | None => (h, Raise (IndexError_default_draw_values i))
        end
      else draw_default_parameters_loop n' h p (S i)
    end
  end.

(** [__draw_default_parameters(default_parameters)]: mutates the list at
    [p] in place and returns that same list. *)
Definition draw_default_parameters (h : heap) (p : loc) : heap * result loc :=
  let '(h', r) :=
    draw_default_parameters_loop (length (default [] (h !! p))) h p 0%nat in
  (h', _ ← r; Ok p).

(** The resolved keyword arguments of [draw]. *)
Record options : Type := {
  axescolor : pyval;
  dotsize : pyval;
  axeslinestyle : pyval;
  axeslinewidth : pyval;
  stepalpha : pyval;
  num_yticks : pyval;
}.

Definition options_list (o : options) : list pyval :=
  [axescolor o; dotsize o; axeslinestyle o; axeslinewidth o; stepalpha o;
   num_yticks o].

(** The call with no keyword argument: all six are [None]. *)
Definition no_options : options :=
  {| axescolor := PNone; dotsize := PNone; axeslinestyle := PNone;
     axeslinewidth := PNone; stepalpha := PNone; num_yticks := PNone |}.

(** Lines 97-107 of [draw]: a new list of the six arguments is built,
    passed to [__draw_default_parameters], and the list that comes back
    is unpacked into the six names. *)
Definition resolve_options (h : heap) (o : options) : heap * result options :=
  let '(p, h1) := alloc h (options_list o) in
  let '(h2, r) := draw_default_parameters h1 p in
  (h2,
   q ← r;
   match default [] (h2 !! q) with
   | [a; b; c; d; e; f] =>
     Ok {| axescolor := a; dotsize := b; axeslinestyle := c;
           axeslinewidth := d; stepalpha := e; num_yticks := f |}
   | l => Raise (ValueError_unpack (length l))
   end).

(** ** The results table and [drop_columns] *)

(** One row of [house_data], as [iterrows] yields it.  Only the cells
    that [draw] reads are kept; the cells of the other columns are never
    read by the program and are left out. *)
Record candidate : Type := {
  year : Z;
  state_po : string;
  district : Z;
  party : string;
  candidatevotes : Z;
  totalvotes : Z;
}.

(** A table: the labels of the columns it still has, and its rows. *)
Record DataFrame : Type := {
  columns : list string;
  rows : list candidate;
}.

(** [PartisanPlot] instances.  [colors] is the Series of colour names
    whose index is [years] (line 49). *)
Record PartisanPlot : Type := {
  house_data : DataFrame;
  num_districts : gmap string nat;
  years : list Z;
  colors : list (Z * string);
}.

(** [Index.drop(labels)] with the default [errors='raise']: every label
    is looked up first, and the new axis is built only if none is
    missing. *)
Definition Index_drop (axis labels : list string) : result (list string) :=
  match filter (λ l, l ∉ axis) labels with
  | [] => Ok (filter (λ c, c ∉ labels) axis)
  | missing => Raise (KeyError_not_found_in_axis missing)
  end.

(** [DataFrame.drop(labels, inplace=True, axis=1)]: the object is
    updated in place after the new axis has been computed. *)
Definition DataFrame_drop (df : DataFrame) (labels : list string)
  : DataFrame * result unit :=
  match Index_drop (columns df) labels with
  | Ok new_axis => ({| columns := new_axis; rows := rows df |}, Ok ())
  | Raise e => (df, Raise e)
  end.

(** [drop_columns]; [dropped_columns] is the Series read from the file. *)
Definition drop_columns (self : PartisanPlot) (dropped_columns : list string)
  : PartisanPlot * result unit :=
  let '(df, r) := DataFrame_drop (house_data self) dropped_columns in
  ({| house_data := df; num_districts := num_districts self;
      years := years self; colors := colors self |}, r).

(** ** The chart surface *)

Inductive cmd : Type :=
  | plt_subplots (figsize : Z * Z)
  | set_xlabel (s : string)
  | set_ylabel (s : string)
  (* axes.set_yticks(np.linspace(start, stop, num)) *)
  | set_yticks_linspace (start stop : Z) (num : pyval)
  | grid (color linestyle linewidth : pyval)
  | plot (xs ys : list Q) (linewidth : Z) (color : string)
  | step (xs ys : list Q) (alpha : pyval) (color : list string)
         (label : string) (linewidth : Z) (where_ : string)
  | scatter (x y : Q) (s : pyval) (color : list string)
  | legend.

(** A computation that draws: the commands issued so far, and how the
    computation ended. *)
Record M (A : Type) : Type := MkM { trace : list cmd; outcome : result A }.
Arguments MkM {A} trace outcome.
Arguments trace {A} m.
Arguments outcome {A} m.

#[global] Instance M_ret : MRet M := λ A a, MkM [] (Ok a).
#[global] Instance M_bind : MBind M := λ A B f m,
  match outcome m with
  | Ok a => MkM (trace m ++ trace (f a)) (outcome (f a))
  | Raise e => MkM (trace m) (Raise e)
  end.

Definition emit (c : cmd) : M unit := MkM [c] (Ok ()).
Definition lift {A} (r : result A) : M A := MkM [] r.

(** [for x in l: body(x)] *)
Fixpoint for_each {A} (l : list A) (body : A → M unit) : M unit :=
  match l with
  | [] => mret ()
  | x :: l' => _ ← body x; for_each l' body
  end.

(** ** Series of margins *)

(** Index labels of the margin Series: the district numbers, and the two
    labels of [extrema], which line 124 builds with
    [index=(0, self.num_districts)]: the second label is the whole
    district-count Series. *)
Inductive label : Type :=
  | LInt (z : Z)
  | Lnum_districts.

Abbreviation Series := (list (label * Q)) (only parsing).

Definition values (s : Series) : list Q := s.*2.

(** Line 124. *)
Definition extrema : Series := [(LInt 0, -1); (Lnum_districts, 1)]%Q.

(** [Series.clip(lower, upper)] on one value. *)
Definition clip (lower upper x : Q) : Q :=
  let y := if Qle_bool x upper then x else upper in
  if Qle_bool lower y then y else lower.

(** The algorithm behind [sort_values]: [argsort v] is the
    rearrangement that it computes, the positions of [v] in the order in
    which they come out. *)
Abbreviation sort_kind := (list Q → list nat) (only parsing).

(** The call of line 163 passes no [kind], so pandas sorts with its
    default kind, for which the library promises an ascending
    rearrangement and nothing about the order of equal values. *)
Definition default_kind (argsort : sort_kind) : Prop :=
  ∀ v, argsort v ≡ₚ seq 0 (length v) ∧
       Sorted Qle ((λ i, nth i v 0%Q) <$> argsort v).

(** [s.sort_values()]: values and labels are taken in the order of
    [argsort]. *)
Definition sort_values (k : sort_kind) (s : Series) : Series :=
  (λ i, nth i s (LInt 0, 0%Q)) <$> k (values s).

(** ** The body of [draw] for one year *)

(** [house_data[c]] and [candidate[c]]: the column has to be there. *)
Definition getitem_column (df : DataFrame) (c : string) : result unit :=
  if bool_decide (c ∈ columns df) then Ok () else Raise (KeyError_column c).

(** Lines 133-137. *)
Definition major_party_candidates (house_data : DataFrame) (y : Z)
    (state : string) : result (list candidate) :=
  _ ← getitem_column house_data "year";
  _ ← getitem_column house_data "state_po";
  _ ← getitem_column house_data "party";
  Ok (filter (λ c, year c = y ∧ state_po c = state ∧
                   (party c = "republican" ∨ party c = "democrat"))
             (rows house_data)).

(** A row of [vote_share]; the row at position [i] has index label
    [i + 1] (line 141). *)
Record shares : Type := { democrat : Q; republican : Q }.

(** Lines 138-141: [np.zeros((D, 2))]. *)
Definition zeros (D : nat) : list shares :=
  replicate D {| democrat := 0; republican := 0 |}.

(** Python's [/] on two ints. *)
Definition true_div (a b : Z) (e : exn) : result Q :=
  if b =? 0 then Raise e else Ok (inject_Z a / inject_Z b)%Q.

(** [vote_share.loc[d, p]], read. *)
Definition loc_getitem (vote_share : list shares) (d : Z) (p : string)
  : result Q :=
  match (if 1 <=? d then vote_share !! Z.to_nat (d - 1) else None) with
  | Some s => Ok (if String.eqb p "democrat" then democrat s else republican s)
  | None => Raise (KeyError_district d)
  end.

(** [vote_share.loc[d, p] = x], for a label [d] that is in the index. *)
Definition loc_setitem (vote_share : list shares) (d : Z) (p : string) (x : Q)
  : list shares :=
  alter (λ s, if String.eqb p "democrat"
              then {| democrat := x; republican := republican s |}
              else {| democrat := democrat s; republican := x |})
        (Z.to_nat (d - 1)) vote_share.

(** Lines 147-154, one iteration of the [iterrows] loop.  The augmented
    assignment reads its target before it evaluates the right-hand
    side. *)
Definition iterrows_body (house_data : DataFrame)
    (st : list shares * Z * Z) (c : candidate) : result (list shares * Z * Z) :=
  let '(vote_share, dem_votes, rep_votes) := st in
  _ ← getitem_column house_data "district";
  old ← loc_getitem vote_share (district c) (party c);
  _ ← getitem_column house_data "candidatevotes";
  _ ← getitem_column house_data "totalvotes";
  share ← true_div (candidatevotes c) (totalvotes c) ZeroDivisionError_share;
  let vote_share := loc_setitem vote_share (district c) (party c) (old + share)%Q in
  if String.eqb (party c) "democrat"
  then Ok (vote_share, dem_votes + candidatevotes c, rep_votes)
  else Ok (vote_share, dem_votes, rep_votes + candidatevotes c).

(** Lines 146-154. *)
Fixpoint iterrows (house_data : DataFrame) (st : list shares * Z * Z)
    (cs : list candidate) : result (list shares * Z * Z) :=
  match cs with
  | [] => Ok st
  | c :: cs' => st' ← iterrows_body house_data st c; iterrows house_data st' cs'
  end.

(** Lines 156-157. *)
Definition actual_margin (dem_votes rep_votes : Z) : result Q :=
  true_div (dem_votes - rep_votes) (dem_votes + rep_votes)
           ZeroDivisionError_actual_margin.

(** Lines 158-162: the margins of the districts, in index order, then the
    two [extrema], all clipped. *)
Definition extrapolated_margin_clipped (vote_share : list shares) (am : Q)
  : Series :=
  let diff : Series :=
    imap (λ i s, (LInt (Z.of_nat i + 1), republican s - democrat s)%Q)
         vote_share in
  let shifted : Series := (λ '(l, x), (l, x + am)%Q) <$> diff in
  (λ '(l, x), (l, clip (-1) 1 x)) <$> (shifted ++ extrema).

(** Lines 158-163. *)
Definition extrapolated_margin (k : sort_kind) (vote_share : list shares)
    (am : Q) : Series :=
  sort_values k (extrapolated_margin_clipped vote_share am).

(** [wins s]: the comparison of lines 166-167 on one district. *)
Definition wins (s : shares) : bool := Qle_bool (republican s) (democrat s).

(** [b.value_counts()[True]]: the count of [True], which is an entry of
    the counts only if it is not zero. *)
Definition value_counts_True (b : list bool) : result nat :=
  match length (filter (λ x, x = true) b) with
  | O => Raise KeyError_True
  | n => Ok n
  end.

(** Lines 165-167. *)
Definition dem_seats (vote_share : list shares) : result nat :=
  value_counts_True (wins <$> vote_share).

(** Lines 169-171. *)
Definition seats_won (D : nat) : list nat := seq 0 (D + 1) ++ [D].

(** [a / D] for an int [a]; [D] is positive wherever [draw] divides. *)
Definition div_districts (a : Z) (D : nat) : Q :=
  (inject_Z a / inject_Z (Z.of_nat D))%Q.

(** Lines 172-173. *)
Definition percent_seats_won (D : nat) : list Q :=
  (λ seat, div_districts (Z.of_nat seat) D) <$> seats_won D.

(** Lines 175-180: the scan, from position [seats] on; the last argument
    is the value of [partisan_bias] so far, [None] while it is unbound. *)
Fixpoint partisan_bias_loop (D : nat) (seats : nat) (margins : list Q)
    (partisan_bias : option Q) : option Q :=
  match margins with
  | [] => partisan_bias
  | margin :: rest =>
    let partisan_bias := div_districts (Z.of_nat seats - 1) D - 0.5 in
    if Qle_bool 0 margin then Some partisan_bias
    else partisan_bias_loop D (S seats) rest (Some partisan_bias)
  end%Q.

Definition partisan_bias (D : nat) (margins : list Q) : option Q :=
  partisan_bias_loop D 0 margins None.

(** Python's [round(x)]: to the nearest integer, halves to the even
    one. *)
Definition round (x : Q) : Z :=
  let f := Qfloor x in
  match (x - inject_Z f ?= 0.5)%Q with
  | Lt => f
  | Gt => f + 1
  | Eq => if Z.even f then f else f + 1
  end.

(** Lines 189-191: the legend label. *)
Definition legend_label (y : Z) (bias : Q) : string :=
  str y +:+ "; " +:+ "D" +:+ sign (round (bias * 100)) +:+ " partisan bias".

(** [self.colors[year]]: the entries of the colour Series whose label is
    the year. *)
Definition colors_getitem (colors : list (Z * string)) (y : Z)
  : result (list string) :=
  match filter (λ e, e.1 = y) colors with
  | [] => Raise (KeyError_year y)
  | es => Ok es.*2
  end.

Definition num_districts_getitem (self : PartisanPlot) (state : string)
  : result nat :=
  match num_districts self !! state with
  | Some D => Ok D
  | None => Raise (KeyError_state state)
  end.

(** The local variables of the loop body once line 180 is passed, with
    the colour that line 188 looks up. *)
Module locals.
Record t : Type := {
  major_party_candidates : list candidate;
  D : nat;                      (* self.num_districts[state] *)
  vote_share : list shares;
  dem_votes : Z;
  rep_votes : Z;
  actual_margin : Q;
  extrapolated_margin : Series;
  dem_seats : nat;
  partisan_bias : Q;
  color : list string;          (* self.colors[year] *)
}.
End locals.

(** Lines 130-180 and the arguments of line 184: what one iteration of
    [for year in self.years] computes before it draws. *)
Definition iteration (k : sort_kind) (self : PartisanPlot) (state : string)
    (y : Z) : result locals.t :=
  cs ← major_party_candidates (house_data self) y state;
  D ← num_districts_getitem self state;
  '(vote_share, dem_votes, rep_votes) ←
    iterrows (house_data self) (zeros D, 0, 0) cs;
  am ← actual_margin dem_votes rep_votes;
  let em := extrapolated_margin k vote_share am in
  seats ← dem_seats vote_share;
  let scanned := partisan_bias D (values em) in
  color ← colors_getitem (colors self) y;
  bias ← match scanned with
         | Some b => Ok b
         | None => Raise UnboundLocalError_partisan_bias
         end;
  Ok {| locals.major_party_candidates := cs; locals.D := D;
        locals.vote_share := vote_share; locals.dem_votes := dem_votes;
        locals.rep_votes := rep_votes; locals.actual_margin := am;
        locals.extrapolated_margin := em; locals.dem_seats := seats;
        locals.partisan_bias := bias; locals.color := color |}.

(** Lines 184-198: the three calls on the axes. *)
Definition draw_curve (o : options) (y : Z) (l : locals.t) : list cmd :=
  [step (values (locals.extrapolated_margin l))
        (percent_seats_won (locals.D l)) (stepalpha o) (locals.color l)
        (legend_label y (locals.partisan_bias l)) 3 "post";
   scatter (locals.actual_margin l)
           (div_districts (Z.of_nat (locals.dem_seats l)) (locals.D l))
           (dotsize o) (locals.color l);
   legend].

(** Lines 130-198: the body of [for year in self.years]. *)
Definition draw_year (k : sort_kind) (self : PartisanPlot) (state : string)
    (o : options) (y : Z) : M unit :=
  l ← lift (iteration k self state y);
  for_each (draw_curve o y l) emit.

(** Lines 109-198. *)
Definition draw_axes (k : sort_kind) (self : PartisanPlot) (state : string)
    (figsize : Z * Z) (o : options) : M unit :=
  _ ← emit (plt_subplots figsize);
  _ ← emit (set_xlabel
    "Average Democratic Vote Margin in US House Races (Two-Party Vote)");
  _ ← emit (set_ylabel "Democratic Share of Seats in the US House");
  _ ← emit (set_yticks_linspace 0 1 (num_yticks o));
  _ ← emit (grid (axescolor o) (axeslinestyle o) (axeslinewidth o));
  _ ← emit (plot [-1; 1] [0.5; 0.5] 3 "k")%Q;
  _ ← emit (plot [0; 0] [0; 1] 3 "k")%Q;
  for_each (years self) (draw_year k self state o).

(** [draw(state, figsize, axescolor, ..., num_yticks)]. *)
Definition draw (k : sort_kind) (self : PartisanPlot) (h : heap)
    (state : string) (figsize : Z * Z) (o : options) : heap * M unit :=
  let '(h', r) := resolve_options h o in
  (h', o' ← lift r; draw_axes k self state figsize o').

(** A call of [draw], and the heap after a sequence of calls, which may
    be made on any instances: [default_draw_values] is an attribute of
    the class. *)
Record call : Type := {
  call_self : PartisanPlot;
  call_state : string;
  call_figsize : Z * Z;
  call_options : options;
}.

Fixpoint draws (k : sort_kind) (h : heap) (calls : list call) : heap :=
  match calls with
  | [] => h
  | c :: calls' =>
    draws k (draw k (call_self c) h (call_state c) (call_figsize c)
                  (call_options c)).1 calls'
  end.

(** The six values of line 10, as keyword arguments. *)
Definition pristine : options :=
  {| axescolor := PStr "k"; dotsize := PInt 200; axeslinestyle := PStr "-";
     axeslinewidth := PFloat (0.2)%Q; stepalpha := PFloat (0.6)%Q;
     num_yticks := PInt 11 |}.

(** ** A sorting algorithm

    The sort by insertion, position after position: a value goes behind
    the values that are at most it, so that equal values stay in the
    order in which they come.  It meets the contract of the default kind
    and stands in for the library's routine where a call is evaluated on
    an instance. *)

Definition goes_before (v : list Q) (i j : nat) : bool :=
  negb (Qle_bool (nth j v 0%Q) (nth i v 0%Q)).

Fixpoint insert_position (v : list Q) (i : nat) (placed : list nat)
  : list nat :=
  match placed with
  | [] => [i]
  | j :: rest =>
    if goes_before v i j then i :: j :: rest
    else j :: insert_position v i rest
  end.

Definition insertion_argsort (v : list Q) : list nat :=
  foldl (λ placed i, insert_position v i placed) [] (seq 0 (length v)).

Definition stable : sort_kind := insertion_argsort.

(** ** Notions used by the properties *)

(** The list that [__draw_default_parameters] leaves behind. *)
Definition fill (l defaults : list pyval) : list pyval :=
  zip_with (λ var d, if is_None var then d else var) l defaults.

#[local] Instance Qle_Transitive : Transitive Qle := Qle_trans.

(** What the claims say of a list of margins, for [D] districts. *)
Definition margin_sequence (D : nat) (xs : list Q) : Prop :=
  length xs = (D + 2)%nat ∧
  Forall (λ x, -1 <= x <= 1)%Q xs ∧
  StronglySorted Qle xs ∧
  (∃ x, head xs = Some x ∧ x == -1)%Q ∧
  (∃ x, last xs = Some x ∧ x == 1)%Q.

(** The facts that hold once an iteration has computed its locals. *)
Record computed (k : sort_kind) (self : PartisanPlot) (state : string)
    (y : Z) (l : locals.t) : Prop := {
  computed_candidates :
    major_party_candidates (house_data self) y state
    = Ok (locals.major_party_candidates l);
  computed_D : num_districts self !! state = Some (locals.D l);
  computed_iterrows :
    iterrows (house_data self) (zeros (locals.D l), 0, 0)
             (locals.major_party_candidates l)
    = Ok (locals.vote_share l, locals.dem_votes l, locals.rep_votes l);
  computed_length : length (locals.vote_share l) = locals.D l;
  computed_actual_margin :
    actual_margin (locals.dem_votes l) (locals.rep_votes l)
    = Ok (locals.actual_margin l);
  computed_extrapolated_margin :
    locals.extrapolated_margin l
    = extrapolated_margin k (locals.vote_share l) (locals.actual_margin l);
  computed_dem_seats :
    dem_seats (locals.vote_share l) = Ok (locals.dem_seats l);
  computed_partisan_bias :
    partisan_bias (locals.D l) (values (locals.extrapolated_margin l))
    = Some (locals.partisan_bias l);
  computed_color : colors_getitem (colors self) y = Ok (locals.color l);
}.

(** The seven calls of lines 109-127. *)
Definition axes_setup (figsize : Z * Z) (o : options) : list cmd :=
  [plt_subplots figsize;
   set_xlabel
     "Average Democratic Vote Margin in US House Races (Two-Party Vote)";
   set_ylabel "Democratic Share of Seats in the US House";
   set_yticks_linspace 0 1 (num_yticks o);
   grid (axescolor o) (axeslinestyle o) (axeslinewidth o);
   plot [-1; 1] [0.5; 0.5] 3 "k";
   plot [0; 0] [0; 1] 3 "k"]%Q.

(** [first_nonnegative xs i]: [i] is the smallest index of [xs] whose
    value is at least 0. *)
Definition first_nonnegative (xs : list Q) (i : nat) : Prop :=
  (∃ m, xs !! i = Some m ∧ (0 <= m)%Q) ∧
  ∀ j m', (j < i)%nat → xs !! j = Some m' → (m' < 0)%Q.

(** [dem_votes] and [rep_votes] after the loop of lines 146-154 over the
    rows [cs] (lines 151-154). *)
Definition vote_sums (cs : list candidate) : Z * Z :=
  foldl (λ '(dem_votes, rep_votes) c,
           if String.eqb (party c) "democrat"
           then (dem_votes + candidatevotes c, rep_votes)
           else (dem_votes, rep_votes + candidatevotes c))
        (0, 0) cs.

(** The numbers of the districts, counted from [d], whose row satisfies
    the comparison of lines 166-167. *)
Fixpoint districts_won_from (d : nat) (vote_share : list shares) : list nat :=
  match vote_share with
  | [] => []
  | s :: rest =>
    if wins s then d :: districts_won_from (S d) rest
    else districts_won_from (S d) rest
  end.

(** The districts 1..D whose democratic share is at least the
    republican share. *)
Definition democratic_districts (vote_share : list shares) : list nat :=
  districts_won_from 1 vote_share.

(** What the claim C2 says of one iteration that has a vote-share table:
    it fails if and only if no district has a democratic share at least
    the republican share. *)
Definition fails_iff_no_democratic_district (k : sort_kind)
    (self : PartisanPlot) (state : string) (y : Z) : Prop :=
  ∀ cs D vote_share dem_votes rep_votes,
    major_party_candidates (house_data self) y state = Ok cs →
    num_districts self !! state = Some D →
    iterrows (house_data self) (zeros D, 0, 0) cs
    = Ok (vote_share, dem_votes, rep_votes) →
    ((∃ e, iteration k self state y = Raise e) ↔
     democratic_districts vote_share = []).

(** What the claim C7 says of a call for a state that has no district
    count: the state is validated at the start, so that the call raises
    the [KeyError] of the state before anything is done to the chart. *)
Definition validated_at_start (k : sort_kind) (self : PartisanPlot)
    (h : heap) (state : string) (figsize : Z * Z) (o : options) : Prop :=
  num_districts self !! state = None →
  (draw k self h state figsize o).2 = MkM [] (Raise (KeyError_state state)).

(** ** Instances *)

(** The example of the specification: two districts, one year. *)
Definition CA : PartisanPlot :=
  {| house_data :=
       {| columns := ["year"; "state"; "state_po"; "district"; "party";
                      "candidatevotes"; "totalvotes"];
          rows := [
            {| year := 2016; state_po := "CA"; district := 1;
               party := "democrat"; candidatevotes := 60; totalvotes := 100 |};
            {| year := 2016; state_po := "CA"; district := 1;
               party := "republican"; candidatevotes := 40; totalvotes := 100 |};
            {| year := 2016; state_po := "CA"; district := 2;
               party := "democrat"; candidatevotes := 40; totalvotes := 100 |};
            {| year := 2016; state_po := "CA"; district := 2;
               party := "republican"; candidatevotes := 60; totalvotes := 100 |};
            {| year := 2016; state_po := "CA"; district := 2;
               party := "green"; candidatevotes := 0; totalvotes := 100 |}] |};
     num_districts := {["CA" := 2%nat]};
     years := [2016];
     colors := [(2016, "red")] |}.

(** A state with one district, for which the table has no major-party
    row in the year drawn. *)
Definition WY : PartisanPlot :=
  {| house_data :=
       {| columns := ["year"; "state"; "state_po"; "district"; "party";
                      "candidatevotes"; "totalvotes"];
          rows := [
            {| year := 2016; state_po := "WY"; district := 1;
               party := "libertarian"; candidatevotes := 9; totalvotes := 9 |};
            {| year := 2018; state_po := "WY"; district := 1;
               party := "republican"; candidatevotes := 7; totalvotes := 9 |}] |};
     num_districts := {["WY" := 1%nat]};
     years := [2016];
     colors := [(2016, "blue")] |}.

(** A state with three districts, the third without any row. *)
Definition NM : PartisanPlot :=
  {| house_data :=
       {| columns := ["year"; "state_po"; "district"; "party";
                      "candidatevotes"; "totalvotes"];
          rows := [
            {| year := 2016; state_po := "NM"; district := 1;
               party := "democrat"; candidatevotes := 30; totalvotes := 100 |};
            {| year := 2016; state_po := "NM"; district := 1;
               party := "republican"; candidatevotes := 70; totalvotes := 100 |};
            {| year := 2016; state_po := "NM"; district := 2;
               party := "republican"; candidatevotes := 50; totalvotes := 100 |}] |};
     num_districts := {["NM" := 3%nat]};
     years := [2016];
     colors := [(2016, "green")] |}.

(** A state with three districts, of which the democrats win one, with
    as many votes as the republicans over the state. *)
Definition AZ : PartisanPlot :=
  {| house_data :=
       {| columns := ["year"; "state_po"; "district"; "party";
                      "candidatevotes"; "totalvotes"];
          rows := [
            {| year := 2016; state_po := "AZ"; district := 1;
               party := "democrat"; candidatevotes := 80; totalvotes := 100 |};
            {| year := 2016; state_po := "AZ"; district := 1;
               party := "republican"; candidatevotes := 20; totalvotes := 100 |};
            {| year := 2016; state_po := "AZ"; district := 2;
               party := "democrat"; candidatevotes := 40; totalvotes := 100 |};
            {| year := 2016; state_po := "AZ"; district := 2;
               party := "republican"; candidatevotes := 60; totalvotes := 100 |};
            {| year := 2016; state_po := "AZ"; district := 3;
               party := "democrat"; candidatevotes := 30; totalvotes := 100 |};
            {| year := 2016; state_po := "AZ"; district := 3;
               party := "republican"; candidatevotes := 70; totalvotes := 100 |}] |};
     num_districts := {["AZ" := 3%nat]};
     years := [2016];
     colors := [(2016, "navy")] |}.

(** ** Notions used by the further properties *)

(** The columns of [house_data] that [draw] reads: three in the row
    filter of lines 133-137, three more in the loop of lines 146-154. *)
Definition filter_columns : list string := ["year"; "state_po"; "party"].
Definition draw_columns : list string :=
  filter_columns ++ ["district"; "candidatevotes"; "totalvotes"].

(** The share that lines 147-150 add for the row [c], and the row of
    [vote_share] after it is added. *)
Definition share (c : candidate) : Q :=
  (inject_Z (candidatevotes c) / inject_Z (totalvotes c))%Q.

Definition add_share (c : candidate) (s : shares) : shares :=
  if String.eqb (party c) "democrat"
  then {| democrat := democrat s + share c; republican := republican s |}
  else {| democrat := democrat s; republican := republican s + share c |}.

(** The rows of [cs] for the district [d] that are ([dem = true]) or are
    not ([dem = false]) rows of the party 'democrat', in the order of
    [cs]. *)
Definition rows_of (d : Z) (dem : bool) (cs : list candidate)
  : list candidate :=
  filter (λ c, district c = d ∧ String.eqb (party c) "democrat" = dem) cs.

(** The shares of the rows [cs] added to [x], one after the other. *)
Definition accumulated (x : Q) (cs : list candidate) : Q :=
  foldl (λ x c, x + share c)%Q x cs.

(** A state with one seat at large, which the table numbers 0. *)
Definition VT : PartisanPlot :=
  {| house_data :=
       {| columns := ["year"; "state_po"; "district"; "party";
                      "candidatevotes"; "totalvotes"];
          rows := [
            {| year := 2016; state_po := "VT"; district := 0;
               party := "democrat"; candidatevotes := 80; totalvotes := 100 |};
            {| year := 2016; state_po := "VT"; district := 0;
               party := "republican"; candidatevotes := 20; totalvotes := 100 |}] |};
     num_districts := {["VT" := 1%nat]};
     years := [2016];
     colors := [(2016, "purple")] |}.

(** A state with one district in which two candidates of one party
    stand. *)
Definition LA : PartisanPlot :=
  {| house_data :=
       {| columns := ["year"; "state_po"; "district"; "party";
                      "candidatevotes"; "totalvotes"];
          rows := [
            {| year := 2016; state_po := "LA"; district := 1;
               party := "democrat"; candidatevotes := 30; totalvotes := 100 |};
            {| year := 2016; state_po := "LA"; district := 1;
               party := "republican"; candidatevotes := 45; totalvotes := 100 |};
            {| year := 2016; state_po := "LA"; district := 1;
               party := "democrat"; candidatevotes := 25; totalvotes := 100 |}] |};
     num_districts := {["LA" := 1%nat]};
     years := [2016];
     colors := [(2016, "teal")] |}.

(** Lines 161-163 on a Series of margins, one for each district: the
    [extrema] are appended, all is clipped, and the Series is sorted. *)
Definition clip_and_sort (k : sort_kind) (margins : Series) : Series :=
  sort_values k ((λ '(l, x), (l, clip (-1) 1 x)) <$> (margins ++ extrema)).

(** The values below 0, counted. *)
Definition below_zero (xs : list Q) : nat :=
  length (filter (λ x, Qle_bool 0 x = false) xs).

(** The districts whose margin [republican - democrat + am], the value
    of lines 158-160, is below 0, counted. *)
Definition districts_below_zero (vote_share : list shares) (am : Q) : nat :=
  length (filter (λ s, Qle_bool 0 (republican s - democrat s + am) = false)
                 vote_share).

(** The calls that the iterations for the years [ys] make on the axes,
    one year after the other; an iteration that raises makes none. *)
Definition curves (k : sort_kind) (self : PartisanPlot) (state : string)
    (o : options) (ys : list Z) : list cmd :=
  y ← ys;
  match iteration k self state y with
  | Ok l => draw_curve o y l
  | Raise _ => []
  end.

(** A state with one district and three years; in the second year the
    table has no democratic candidate. *)
Definition NV : PartisanPlot :=
  {| house_data :=
       {| columns := ["year"; "state_po"; "district"; "party";
                      "candidatevotes"; "totalvotes"];
          rows := [
            {| year := 2016; state_po := "NV"; district := 1;
               party := "democrat"; candidatevotes := 55; totalvotes := 100 |};
            {| year := 2016; state_po := "NV"; district := 1;
               party := "republican"; candidatevotes := 45; totalvotes := 100 |};
            {| year := 2018; state_po := "NV"; district := 1;
               party := "republican"; candidatevotes := 70; totalvotes := 100 |};
            {| year := 2020; state_po := "NV"; district := 1;
               party := "democrat"; candidatevotes := 50; totalvotes := 100 |};
            {| year := 2020; state_po := "NV"; district := 1;
               party := "republican"; candidatevotes := 50; totalvotes := 100 |}] |};
     num_districts := {["NV" := 1%nat]};
     years := [2016; 2018; 2020];
     colors := [(2016, "red"); (2018, "green"); (2020, "blue")] |}.

(** The rows that the filter of lines 133-137 keeps for the year [y]. *)
Definition filtered_rows (self : PartisanPlot) (state : string) (y : Z)
  : list candidate :=
  filter (λ c, year c = y ∧ state_po c = state ∧
               (party c = "republican" ∨ party c = "democrat"))
         (rows (house_data self)).

(** What holds of the instance when the iteration of the year [y] raises
    the exception [e]: the cause that every exception but the [KeyError]
    of the seat count has in the table, the district counts or the
    colours; for that [KeyError], which depends on the float64 sums of
    the shares, that the steps before it went through. *)
Definition iteration_raises (self : PartisanPlot) (state : string) (y : Z)
    (e : exn) : Prop :=
  let cs := filtered_rows self state y in
  match e with
  | KeyError_column c => c ∈ draw_columns ∧ c ∉ columns (house_data self)
  | KeyError_state s => s = state ∧ num_districts self !! state = None
  | KeyError_district d =>
    ∃ D c, num_districts self !! state = Some D ∧ c ∈ cs ∧
           district c = d ∧ ¬ (1 ≤ d ≤ Z.of_nat D)
  | ZeroDivisionError_share => ∃ c, c ∈ cs ∧ totalvotes c = 0
  | ZeroDivisionError_actual_margin =>
    (vote_sums cs).1 + (vote_sums cs).2 = 0
  | KeyError_True =>
    ∃ D, num_districts self !! state = Some D ∧
         (vote_sums cs).1 + (vote_sums cs).2 ≠ 0
  | KeyError_year y' => y' = y ∧ ∀ color, (y, color) ∉ colors self
  | KeyError_not_found_in_axis _ | UnboundLocalError_partisan_bias
  | IndexError_default_draw_values _ | ValueError_unpack _ => False
  end.

(** [CA] in a larger data set: the table has no minor-party row, but a
    row of another state and a row of a year that is not drawn; there is
    a district count for another state and a colour for another year. *)
Definition CA_US : PartisanPlot :=
  {| house_data :=
       {| columns := ["year"; "state"; "state_po"; "district"; "party";
                      "candidatevotes"; "totalvotes"];
          rows := [
            {| year := 2016; state_po := "TX"; district := 36;
               party := "republican"; candidatevotes := 0; totalvotes := 0 |};
            {| year := 2016; state_po := "CA"; district := 1;
               party := "democrat"; candidatevotes := 60; totalvotes := 100 |};
            {| year := 2016; state_po := "CA"; district := 1;
               party := "republican"; candidatevotes := 40; totalvotes := 100 |};
            {| year := 2014; state_po := "CA"; district := 53;
               party := "democrat"; candidatevotes := 10; totalvotes := 100 |};
            {| year := 2016; state_po := "CA"; district := 2;
               party := "democrat"; candidatevotes := 40; totalvotes := 100 |};
            {| year := 2016; state_po := "CA"; district := 2;
               party := "republican"; candidatevotes := 60; totalvotes := 100 |}] |};
     num_districts := {["CA" := 2%nat; "TX" := 36%nat]};
     years := [2016];
     colors := [(2014, "blue"); (2016, "red")] |}.

(** Reading a signed decimal string back, as Python's [int] does: an
    optional '+' or '-', then the digits. *)
Definition read_sign (s : string) : option Z :=
  match s with
  | String c s' =>
    if Ascii.eqb c "+"%char then Z.of_uint <$> NilZero.uint_of_string s'
    else Z.of_int <$> NilZero.int_of_string s
  | EmptyString => None
  end.

(** ** [__init__] *)

(** The [ValueError] of line 49: an index of [new] labels for a Series
    of [expected] entries. *)
Inductive init_exn : Type :=
  | ValueError_length_mismatch (expected new : nat).

(** [s.index = labels]: one label for each entry, in order. *)
Definition set_index (s : list string) (labels : list Z)
  : init_exn + list (Z * string) :=
  if decide (length labels = length s) then inr (zip labels s)
  else inl (ValueError_length_mismatch (length s) (length labels)).

(** [__init__], from line 49 on: the arguments are what lines 35-48 have
    read from the four files. *)
Definition __init__ (read_house_data : DataFrame)
    (read_states : gmap string nat) (read_years : list Z)
    (read_colors : list string) : init_exn + PartisanPlot :=
  match set_index read_colors read_years with
  | inr colors_by_year =>
    inr {| house_data := read_house_data; num_districts := read_states;
           years := read_years; colors := colors_by_year |}
  | inl e => inl e
  end.

(** * Properties *)

(** ** [drop_columns] *)

Lemma Index_drop_missing axis labels c :
  c ∈ labels → c ∉ axis →
  ∃ missing, c ∈ missing ∧
    Index_drop axis labels = Raise (KeyError_not_found_in_axis missing).
Proof.
  intros Hl Ha. unfold Index_drop.
  assert (c ∈ filter (λ l, l ∉ axis) labels) as Hc
    by by apply list_elem_of_filter.
  destruct (filter (λ l, l ∉ axis) labels) as [|m ms] eqn:E.
  - by apply not_elem_of_nil in Hc.
  - by exists (m :: ms).
Qed.

(** C10. [drop_columns] with a label that is not a column of the results
    table raises (the [KeyError] of [drop]) and leaves the object, hence
    the table and each of its columns, exactly as it was. *)
Theorem drop_columns_atomic (self : PartisanPlot) (dropped_columns : list string)
    (c : string) :
  c ∈ dropped_columns → c ∉ columns (house_data self) →
  ∃ missing, c ∈ missing ∧
    drop_columns self dropped_columns
    = (self, Raise (KeyError_not_found_in_axis missing)).
Proof.
  intros Hl Ha.
  destruct (Index_drop_missing _ _ _ Hl Ha) as (missing & Hm & E).
  exists missing. split; [done|].
  unfold drop_columns, DataFrame_drop. rewrite E. by destruct self.
Qed.

(** ** The defaults of [draw] *)

Lemma draw_default_parameters_loop_spec n (h : heap) p i l defaults :
  p ≠ default_draw_values_loc →
  h !! default_draw_values_loc = Some defaults →
  h !! p = Some l →
  (length l ≤ length defaults)%nat →
  (length l ≤ n + i)%nat →
  draw_default_parameters_loop n h p i
  = (<[p := take i l ++ fill (drop i l) (drop i defaults)]> h, Ok ()).
Proof.
  revert h i l. induction n as [|n IH]; intros h i l Hp Hd Hl Hlen Hn; simpl.
  - rewrite (drop_ge l), app_nil_r, take_ge by lia.
    by rewrite list_insert_id.
  - rewrite Hl. simpl. destruct (l !! i) as [var|] eqn:Hi.
    + assert (i < length l)%nat as Hlt by by eapply lookup_lt_Some.
      destruct (lookup_lt_is_Some_2 defaults i) as [d Hdi]; [lia|].
      rewrite (drop_S l var i Hi), (drop_S defaults d i Hdi). simpl.
      destruct (is_None var) eqn:Hv.
      * rewrite Hd. simpl. rewrite Hdi. unfold list_setitem. rewrite Hl.
        rewrite (IH _ _ (<[i:=d]> l)).
        -- rewrite list_insert_insert_eq. f_equal. f_equal.
           rewrite drop_insert_lt by lia.
           rewrite (take_S_r (<[i:=d]> l) i d)
             by by apply list_lookup_insert_eq.
           rewrite take_insert_ge by lia.
           by rewrite <- app_assoc.
        -- done.
        -- by rewrite list_lookup_insert_ne.
        -- apply list_lookup_insert_eq. by eapply lookup_lt_Some.
        -- by rewrite length_insert.
        -- rewrite length_insert. lia.
      * rewrite (IH _ _ l); try done; try lia.
        f_equal. f_equal. rewrite (take_S_r l i var Hi).
        by rewrite <- app_assoc.
    + apply lookup_ge_None in Hi.
      rewrite (drop_ge l), app_nil_r, take_ge by lia.
      by rewrite list_insert_id.
Qed.

Lemma resolve_options_spec (h : heap) (o : options) :
  h !! default_draw_values_loc = Some default_draw_values →
  ∃ o',
    options_list o' = fill (options_list o) default_draw_values ∧
    resolve_options h o = (h ++ [options_list o'], Ok o').
Proof.
  intros Hd.
  assert (0 < length h)%nat as Hlen by by eapply lookup_lt_Some.
  assert (draw_default_parameters_loop 6 (h ++ [options_list o]) (length h) 0
          = (h ++ [fill (options_list o) default_draw_values], Ok ()))
    as Hloop.
  { rewrite (draw_default_parameters_loop_spec 6 _ _ 0 (options_list o)
               default_draw_values).
    - rewrite take_0, !drop_0, app_nil_l.
      replace (length h) with (length h + 0)%nat at 1 by lia.
      by rewrite insert_app_r.
    - unfold default_draw_values_loc. lia.
    - by rewrite lookup_app_l.
    - by apply list_lookup_middle.
    - simpl. lia.
    - simpl. lia. }
  unfold resolve_options, alloc, draw_default_parameters.
  rewrite list_lookup_middle by done.
  change (length (default [] (Some (options_list o)))) with 6%nat.
  rewrite Hloop. cbn [mbind result_bind].
  rewrite list_lookup_middle by done.
  eexists {| axescolor := _ |}. split; reflexivity.
Qed.

(** The class attribute is never written by a call of [draw]. *)
Lemma draw_default_draw_values k self (h : heap) state figsize o :
  h !! default_draw_values_loc = Some default_draw_values →
  (draw k self h state figsize o).1 !! default_draw_values_loc
  = Some default_draw_values.
Proof.
  intros Hd. unfold draw.
  destruct (resolve_options_spec h o Hd) as (o' & _ & ->). simpl.
  by rewrite lookup_app_l by by eapply lookup_lt_Some.
Qed.

Lemma lift_Ok_bind {A B} (a : A) (f : A → M B) : lift (Ok a) ≫= f = f a.
Proof. unfold mbind, M_bind, lift. simpl. by destruct (f a). Qed.

Lemma lift_Raise_bind {A B} (e : exn) (f : A → M B) :
  lift (Raise e) ≫= f = MkM [] (Raise e).
Proof. done. Qed.

Lemma draws_default_draw_values k (calls : list call) (h : heap) :
  h !! default_draw_values_loc = Some default_draw_values →
  draws k h calls !! default_draw_values_loc = Some default_draw_values.
Proof.
  revert h. induction calls as [|c calls IH]; intros h Hd; simpl; [done|].
  by apply IH, draw_default_draw_values.
Qed.

(** C5. Whatever calls of [draw] were made before, with whatever explicit
    option values and on whatever instances, the class attribute still
    holds the values of line 10 ('k', 200, '-', 0.2, 0.6, 11), a call
    with all options unset resolves them to these values, and it draws
    exactly as a call that passes these six values does. *)
Theorem draw_defaults_isolated k (earlier : list call) self state figsize :
  let h := draws k class_heap earlier in
  h !! default_draw_values_loc = Some default_draw_values ∧
  (resolve_options h no_options).2 = Ok pristine ∧
  (draw k self h state figsize no_options).2
  = draw_axes k self state figsize pristine.
Proof.
  intros h.
  assert (h !! default_draw_values_loc = Some default_draw_values) as Hd
    by by apply draws_default_draw_values.
  destruct (resolve_options_spec h no_options Hd) as (o' & Ho' & E).
  assert (o' = pristine) as ->.
  { destruct o'. unfold options_list in Ho'. simpl in Ho'.
    by injection Ho' as -> -> -> -> -> ->. }
  unfold draw. rewrite E. simpl. split_and!; [done..|].
  apply lift_Ok_bind.
Qed.

(** A call that sets the marker size, then a call with no option: the
    second draws with the marker size 200. *)
Example dotsize_does_not_leak :
  let first := {| call_self := CA; call_state := "CA"; call_figsize := (4, 3);
                  call_options :=
                    {| axescolor := PNone; dotsize := PInt 50;
                       axeslinestyle := PNone; axeslinewidth := PNone;
                       stepalpha := PNone; num_yticks := PNone |} |} in
  scatter (0 # 200)%Q (1 # 2)%Q (PInt 50) ["red"]
    ∈ trace (draw stable CA class_heap "CA" (4, 3) (call_options first)).2 ∧
  scatter (0 # 200)%Q (1 # 2)%Q (PInt 200) ["red"]
    ∈ trace (draw stable CA (draws stable class_heap [first]) "CA" (4, 3)
                  no_options).2.
Proof.
  split; vm_compute;
    repeat first [apply list_elem_of_here | apply list_elem_of_further].
Qed.

(** ** The sort by insertion meets the contract *)

Section insertion.
Variable v : list Q.

Lemma insert_position_Permutation i placed :
  insert_position v i placed ≡ₚ i :: placed.
Proof.
  induction placed as [|j rest IH]; simpl; [done|].
  destruct (goes_before v i j); [done|].
  rewrite IH. apply Permutation_swap.
Qed.

Lemma foldl_insert_position_Permutation l placed :
  foldl (λ placed i, insert_position v i placed) placed l ≡ₚ l ++ placed.
Proof.
  revert placed. induction l as [|i l IH]; intros placed; simpl; [done|].
  rewrite IH, insert_position_Permutation.
  by rewrite Permutation_middle.
Qed.

Lemma goes_before_le i j :
  goes_before v i j = true → (nth i v 0 <= nth j v 0)%Q.
Proof.
  unfold goes_before.
  intros H%negb_true_iff. apply Qlt_le_weak, Qnot_le_lt.
  by rewrite <- Qle_bool_iff, H.
Qed.

Lemma goes_before_ge i j :
  goes_before v i j = false → (nth j v 0 <= nth i v 0)%Q.
Proof.
  unfold goes_before. intros H%negb_false_iff. by apply Qle_bool_iff.
Qed.

Lemma insert_position_Sorted i placed :
  Sorted Qle ((λ i, nth i v 0%Q) <$> placed) →
  Sorted Qle ((λ i, nth i v 0%Q) <$> insert_position v i placed).
Proof.
  induction placed as [|j rest IH]; simpl; intros Hs.
  - repeat constructor.
  - destruct (goes_before v i j) eqn:Hb; simpl.
    + constructor; [done|]. constructor. by apply goes_before_le.
    + apply Sorted_inv in Hs as [Hs Hhd]. constructor; [by apply IH|].
      destruct rest as [|j' rest]; simpl.
      * constructor. by apply goes_before_ge.
      * destruct (goes_before v i j'); simpl; constructor.
        -- by apply goes_before_ge.
        -- by apply HdRel_inv in Hhd.
Qed.

Lemma foldl_insert_position_Sorted l placed :
  Sorted Qle ((λ i, nth i v 0%Q) <$> placed) →
  Sorted Qle ((λ i, nth i v 0%Q) <$>
    foldl (λ placed i, insert_position v i placed) placed l).
Proof.
  revert placed. induction l as [|i l IH]; intros placed Hs; simpl; [done|].
  by apply IH, insert_position_Sorted.
Qed.
End insertion.

Lemma insertion_argsort_default_kind : default_kind insertion_argsort.
Proof.
  intros v. split.
  - unfold insertion_argsort.
    rewrite foldl_insert_position_Permutation. by rewrite app_nil_r.
  - apply foldl_insert_position_Sorted. constructor.
Qed.

Lemma stable_default_kind : default_kind stable.
Proof. apply insertion_argsort_default_kind. Qed.

(** ** Sorting a Series *)

Lemma fmap_nth_seq {A} (l : list A) (d : A) :
  (λ i, nth i l d) <$> seq 0 (length l) = l.
Proof.
  apply list_eq. intros i. rewrite list_lookup_fmap.
  destruct (decide (i < length l)%nat) as [Hi|Hi].
  - rewrite lookup_seq_lt by done. simpl.
    destruct (lookup_lt_is_Some_2 l i Hi) as [x Hx].
    by rewrite Hx, (nth_lookup_Some _ _ _ _ Hx).
  - rewrite lookup_seq_ge, lookup_ge_None_2 by lia. done.
Qed.

Section sort_values.
Variable k : sort_kind.
Hypothesis Hk : default_kind k.

Lemma sort_values_Permutation (s : Series) : sort_values k s ≡ₚ s.
Proof.
  unfold sort_values. rewrite (proj1 (Hk _)).
  unfold values. rewrite length_fmap. by rewrite fmap_nth_seq.
Qed.

Lemma values_sort_values (s : Series) :
  values (sort_values k s)
  = (λ i, nth i (values s) 0%Q) <$> k (values s).
Proof.
  unfold sort_values, values at 1. rewrite <- list_fmap_compose.
  apply list_fmap_ext. intros _ i _. simpl.
  unfold values. by rewrite <- (map_nth snd).
Qed.

Lemma sort_values_Sorted (s : Series) :
  StronglySorted Qle (values (sort_values k s)).
Proof.
  rewrite values_sort_values.
  apply Sorted_StronglySorted; [apply _|]. apply Hk.
Qed.

Lemma values_sort_values_Permutation (s : Series) :
  values (sort_values k s) ≡ₚ values s.
Proof. unfold values. by rewrite sort_values_Permutation. Qed.
End sort_values.

(** In an ascending list every value lies between the first and the
    last. *)
Lemma StronglySorted_head_le (xs : list Q) x y :
  StronglySorted Qle xs → head xs = Some x → y ∈ xs → (x <= y)%Q.
Proof.
  intros Hs Hh Hy. destruct xs as [|x' xs]; [done|].
  injection Hh as ->. apply StronglySorted_inv in Hs as [_ Hall].
  apply elem_of_cons in Hy as [->|Hy]; [apply Qle_refl|].
  by eapply Forall_forall in Hall.
Qed.

Lemma StronglySorted_le_last (xs : list Q) x y :
  StronglySorted Qle xs → last xs = Some x → y ∈ xs → (y <= x)%Q.
Proof.
  intros Hs Hl Hy. apply last_Some in Hl as [xs' ->].
  apply elem_of_app in Hy as [Hy|Hy%list_elem_of_singleton].
  - eapply StronglySorted_app_1_elem_of; [done..|]. by left.
  - subst. apply Qle_refl.
Qed.

(** ** The margins of one year *)

Lemma clip_bounds x : (-1 <= clip (-1) 1 x <= 1)%Q.
Proof.
  unfold clip.
  destruct (Qle_bool x 1) eqn:E1.
  - destruct (Qle_bool (-1) x) eqn:E2.
    + split; by apply Qle_bool_iff.
    + done.
  - done.
Qed.

Lemma values_extrapolated_margin_clipped vote_share am :
  values (extrapolated_margin_clipped vote_share am)
  = ((λ s, clip (-1) 1 (republican s - democrat s + am)) <$> vote_share)
    ++ [-1; 1]%Q.
Proof.
  unfold extrapolated_margin_clipped, values.
  rewrite !fmap_app. f_equal.
  rewrite <- !list_fmap_compose. rewrite fmap_imap.
  apply list_eq. intros i. rewrite list_lookup_imap, list_lookup_fmap.
  by destruct (vote_share !! i).
Qed.

Lemma extrapolated_margin_sequence k vote_share am :
  default_kind k →
  margin_sequence (length vote_share)
    (values (extrapolated_margin k vote_share am)).
Proof.
  intros Hk. set (xs := values (extrapolated_margin k vote_share am)).
  assert (xs ≡ₚ values (extrapolated_margin_clipped vote_share am)) as Hp
    by by apply values_sort_values_Permutation.
  rewrite values_extrapolated_margin_clipped in Hp.
  assert (StronglySorted Qle xs) as Hs by by apply sort_values_Sorted.
  assert (Forall (λ x, -1 <= x <= 1)%Q xs) as Hb.
  { rewrite Hp. apply Forall_app. split.
    - apply Forall_fmap, Forall_true. intros s. apply clip_bounds.
    - by repeat constructor. }
  assert (length xs = (length vote_share + 2)%nat) as Hlen
    by by rewrite Hp, length_app, length_fmap.
  split_and!; try done.
  - destruct xs as [|x xs']; [simpl in Hlen; lia|].
    exists x. split; [done|]. apply Qle_antisym.
    + eapply (StronglySorted_head_le (x :: xs')); [done..|].
      rewrite Hp. set_solver.
    + by apply Forall_cons in Hb as [[? ?] _].
  - destruct (last xs) as [x|] eqn:Hl.
    + exists x. split; [done|]. apply Qle_antisym.
      * apply last_Some_elem_of in Hl.
        eapply Forall_forall in Hb; [|done]. tauto.
      * eapply StronglySorted_le_last; [done..|]. rewrite Hp. set_solver.
    + apply last_None in Hl. rewrite Hl in Hlen. simpl in Hlen. lia.
Qed.

(** ** One iteration of the loop over the years *)

Lemma length_zeros D : length (zeros D) = D.
Proof. apply length_replicate. Qed.

Lemma loc_setitem_length vote_share d p x :
  length (loc_setitem vote_share d p x) = length vote_share.
Proof. apply length_alter. Qed.

Lemma iterrows_body_length df vs dem rep c vs' dem' rep' :
  iterrows_body df (vs, dem, rep) c = Ok (vs', dem', rep') →
  length vs' = length vs.
Proof.
  unfold iterrows_body. intros H.
  destruct (getitem_column df "district"); [|done]. simpl in H.
  destruct (loc_getitem vs (district c) (party c)); [|done]. simpl in H.
  destruct (getitem_column df "candidatevotes"); [|done]. simpl in H.
  destruct (getitem_column df "totalvotes"); [|done]. simpl in H.
  destruct (true_div _ _ _); [|done]. simpl in H.
  destruct (String.eqb _ _); injection H as <- _ _;
    apply loc_setitem_length.
Qed.

Lemma iterrows_length df cs vs dem rep vs' dem' rep' :
  iterrows df (vs, dem, rep) cs = Ok (vs', dem', rep') →
  length vs' = length vs.
Proof.
  revert vs dem rep.
  induction cs as [|c cs IH]; intros vs dem rep; cbn [iterrows].
  - by intros [= -> _ _].
  - destruct (iterrows_body df (vs, dem, rep) c) as [[[vs1 dem1] rep1]|] eqn:E;
      simpl; [|done]. intros H%IH.
    rewrite H. by eapply iterrows_body_length.
Qed.

Lemma iteration_Ok k self state y l :
  iteration k self state y = Ok l → computed k self state y l.
Proof.
  unfold iteration. intros H.
  destruct (major_party_candidates _ _ _) as [cs|] eqn:Hcs; [|done].
  simpl in H. unfold num_districts_getitem in H.
  destruct (num_districts self !! state) as [D|] eqn:HD; [|done].
  simpl in H.
  destruct (iterrows _ _ _) as [[[vs dem] rep]|] eqn:Hit; [|done].
  simpl in H.
  destruct (actual_margin dem rep) as [am|] eqn:Ham; [|done]. simpl in H.
  destruct (dem_seats vs) as [seats|] eqn:Hseats; [|done]. simpl in H.
  destruct (colors_getitem _ _) as [color|] eqn:Hcolor; [|done]. simpl in H.
  destruct (partisan_bias _ _) as [bias|] eqn:Hbias; [|done]. simpl in H.
  injection H as <-. split; simpl; try done.
  apply iterrows_length in Hit. by rewrite Hit, length_zeros.
Qed.

(** ** The trace of [draw] *)

Lemma draw_year_cases k self state o y :
  (∃ e, iteration k self state y = Raise e ∧
        draw_year k self state o y = MkM [] (Raise e)) ∨
  (∃ l, iteration k self state y = Ok l ∧
        draw_year k self state o y = MkM (draw_curve o y l) (Ok ())).
Proof.
  unfold draw_year. destruct (iteration k self state y) as [l|e].
  - right. exists l. split; [done|]. by rewrite lift_Ok_bind.
  - left. by exists e.
Qed.

Lemma for_each_trace {A} (l : list A) (body : A → M unit) c :
  c ∈ trace (for_each l body) → ∃ x, x ∈ l ∧ c ∈ trace (body x).
Proof.
  induction l as [|x l IH]; simpl.
  - by intros ?%not_elem_of_nil.
  - unfold mbind, M_bind. destruct (outcome (body x)); simpl.
    + intros [H|H]%elem_of_app.
      * exists x. split; [left|done].
      * destruct (IH H) as (x' & ? & ?). exists x'. split; [by right|done].
    + intros H. exists x. split; [left|done].
Qed.

(** A failing iteration makes the loop, and the call, fail. *)
Lemma for_each_Raise {A} (l : list A) (body : A → M unit) x e :
  x ∈ l → outcome (body x) = Raise e →
  ∃ e', outcome (for_each l body) = Raise e'.
Proof.
  induction l as [|x' l IH]; [by intros ?%not_elem_of_nil|].
  intros Hx He. simpl. unfold mbind, M_bind.
  destruct (outcome (body x')) as [[]|e'] eqn:E; simpl; [|by exists e'].
  apply elem_of_cons in Hx as [->|Hx]; [congruence|]. by apply IH.
Qed.

Lemma draw_axes_unfold k self state figsize o :
  draw_axes k self state figsize o
  = MkM (axes_setup figsize o
         ++ trace (for_each (years self) (draw_year k self state o)))
        (outcome (for_each (years self) (draw_year k self state o))).
Proof. done. Qed.

Lemma draw_cases k self (h : heap) state figsize o :
  (∃ e, (draw k self h state figsize o).2 = MkM [] (Raise e)) ∨
  (∃ o', (draw k self h state figsize o).2
         = draw_axes k self state figsize o').
Proof.
  unfold draw. destruct (resolve_options h o) as [h' [o'|e]]; simpl.
  - right. exists o'. apply lift_Ok_bind.
  - left. by exists e.
Qed.

(** Every curve in the trace of a call was drawn by an iteration that
    computed its locals. *)
Lemma draw_step_computed k self (h : heap) state figsize o
    xs ys alpha color lbl w wh :
  step xs ys alpha color lbl w wh
    ∈ trace (draw k self h state figsize o).2 →
  ∃ y l, y ∈ years self ∧ iteration k self state y = Ok l ∧
    xs = values (locals.extrapolated_margin l) ∧
    ys = percent_seats_won (locals.D l) ∧
    lbl = legend_label y (locals.partisan_bias l).
Proof.
  destruct (draw_cases k self h state figsize o) as [[e ->]|[o' ->]].
  - by intros ?%not_elem_of_nil.
  - rewrite draw_axes_unfold. cbn [trace]. intros [H|H]%elem_of_app.
    + unfold axes_setup in H.
      repeat (apply elem_of_cons in H as [H|H]; [discriminate H|]).
      by apply not_elem_of_nil in H.
    + apply for_each_trace in H as (y & Hy & H). exists y.
      destruct (draw_year_cases k self state o' y)
        as [(e & _ & E)|(l & Hl & E)]; rewrite E in H; simpl in H.
      * by apply not_elem_of_nil in H.
      * exists l. unfold draw_curve in H.
        apply elem_of_cons in H as [H|H]; [by injection H as -> -> _ _ ->|].
        repeat (apply elem_of_cons in H as [H|H]; [discriminate H|]).
        by apply not_elem_of_nil in H.
Qed.

(** ** The scan for the partisan bias *)

Lemma StronglySorted_lookup_le (xs : list Q) i j x x' :
  StronglySorted Qle xs → (i ≤ j)%nat →
  xs !! i = Some x → xs !! j = Some x' → (x <= x')%Q.
Proof.
  intros Hs. revert i j. induction Hs as [|a xs Hs IH Hall]; intros i j Hij.
  - done.
  - destruct i as [|i], j as [|j]; simpl; try lia.
    + intros [= ->] [= ->]. apply Qle_refl.
    + intros [= ->] Hj. eapply Forall_forall in Hall; [done|].
      by eapply list_elem_of_lookup_2.
    + apply IH. lia.
Qed.

Lemma first_nonnegative_exists (xs : list Q) x :
  x ∈ xs → (0 <= x)%Q → ∃ i, first_nonnegative xs i.
Proof.
  induction xs as [|a xs IH]; [by intros ?%not_elem_of_nil|].
  intros Hx Hx0. destruct (Qlt_le_dec a 0) as [Ha|Ha].
  - apply elem_of_cons in Hx as [->|Hx].
    + by apply Qlt_not_le in Ha.
    + destruct (IH Hx Hx0) as (i & (m & Hi & Hm) & Hfirst).
      exists (S i). split; [by exists m|].
      intros [|j] m' Hj; simpl; [by intros [= <-]|].
      apply Hfirst. lia.
  - exists 0%nat. split; [by exists a|]. intros j m' Hj. lia.
Qed.

Lemma partisan_bias_loop_break D seats margins pb i :
  first_nonnegative margins i →
  partisan_bias_loop D seats margins pb
  = Some (div_districts (Z.of_nat (seats + i) - 1) D - 0.5)%Q.
Proof.
  revert seats i pb.
  induction margins as [|margin rest IH]; intros seats i pb Hfirst.
  - by destruct Hfirst as [(m & Hm & _) _].
  - destruct Hfirst as [(m & Hm & Hm0) Hfirst]. simpl.
    destruct i as [|i].
    + injection Hm as ->. apply Qle_bool_iff in Hm0. rewrite Hm0.
      by rewrite Nat.add_0_r.
    + assert (margin < 0)%Q as Hneg by (apply (Hfirst 0%nat); [lia|done]).
      destruct (Qle_bool 0 margin) eqn:E.
      * apply Qle_bool_iff in E. by apply Qlt_not_le in Hneg.
      * rewrite (IH (S seats) i).
        -- by rewrite Nat.add_succ_r.
        -- split; [by exists m|]. intros j m' Hj. apply (Hfirst (S j)). lia.
Qed.

Lemma partisan_bias_first D xs i :
  first_nonnegative xs i →
  partisan_bias D xs = Some (div_districts (Z.of_nat i - 1) D - 0.5)%Q.
Proof. apply (partisan_bias_loop_break D 0). Qed.

(** The +1 of [extrema] is one of the sorted margins. *)
Lemma one_elem_of_extrapolated_margin k vote_share am :
  default_kind k →
  1%Q ∈ values (extrapolated_margin k vote_share am).
Proof.
  intros Hk. unfold extrapolated_margin.
  rewrite (values_sort_values_Permutation k Hk),
    values_extrapolated_margin_clipped.
  apply elem_of_app. right. by repeat constructor.
Qed.

Lemma extrapolated_margin_first_nonnegative k vote_share am :
  default_kind k →
  ∃ i, first_nonnegative (values (extrapolated_margin k vote_share am)) i.
Proof.
  intros Hk. eapply first_nonnegative_exists;
    [by apply one_elem_of_extrapolated_margin|done].
Qed.

Lemma colors_getitem_Raise colors y e :
  colors_getitem colors y = Raise e → e = KeyError_year y.
Proof.
  unfold colors_getitem. destruct (filter _ colors); [|done]. by intros [= <-].
Qed.

Lemma dem_seats_Ok_nonempty vote_share seats :
  dem_seats vote_share = Ok seats → (0 < length vote_share)%nat.
Proof.
  destruct vote_share; [done|]. simpl. lia.
Qed.

(** ** The claims on the sorted margins *)

(** C1. In every call of [draw] for a state with [D] districts, sorted by
    an algorithm of the default kind, the margins of every curve drawn
    (the sorted extrapolated margins of a rendered year) are [D + 2]
    values, each in [-1, 1], in non-decreasing order, the first equal to
    -1 and the last equal to +1. *)
Theorem sorted_margins_shape k self (h : heap) state figsize o D
    xs ys alpha color lbl w wh :
  default_kind k →
  num_districts self !! state = Some D →
  step xs ys alpha color lbl w wh
    ∈ trace (draw k self h state figsize o).2 →
  length xs = (D + 2)%nat ∧
  (∀ x, x ∈ xs → (-1 <= x <= 1)%Q) ∧
  (∀ i j x x', (i ≤ j)%nat → xs !! i = Some x → xs !! j = Some x' →
               (x <= x')%Q) ∧
  (∃ x, head xs = Some x ∧ (x == -1)%Q) ∧
  (∃ x, last xs = Some x ∧ (x == 1)%Q).
Proof.
  intros Hk HD (y & l & _ & Hl%iteration_Ok & -> & _)%draw_step_computed.
  destruct Hl. rewrite computed_extrapolated_margin0.
  destruct (extrapolated_margin_sequence k (locals.vote_share l)
              (locals.actual_margin l) Hk) as (Hlen & Hb & Hs & Hhd & Hlast).
  assert (locals.D l = D) as <- by congruence.
  rewrite computed_length0 in Hlen. split_and!; try done.
  - intros x Hx. by eapply Forall_forall in Hb.
  - intros i j x x'. by apply StronglySorted_lookup_le.
Qed.

(** C9. Whenever an iteration of [draw], sorting with an algorithm of
    the default kind, reaches the scan of lines 175-180, the district
    count is positive, the sorted margins contain the +1 of [extrema],
    so the scan stops at the first index whose margin is at least 0 and
    leaves [partisan_bias] assigned there; the iteration never fails for
    want of a value of [partisan_bias]. *)
Theorem partisan_bias_defined k self state y cs D vote_share dem_votes
    rep_votes am seats :
  default_kind k →
  major_party_candidates (house_data self) y state = Ok cs →
  num_districts self !! state = Some D →
  iterrows (house_data self) (zeros D, 0, 0) cs
  = Ok (vote_share, dem_votes, rep_votes) →
  actual_margin dem_votes rep_votes = Ok am →
  dem_seats vote_share = Ok seats →
  let margins := values (extrapolated_margin k vote_share am) in
  (0 < D)%nat ∧
  1%Q ∈ margins ∧
  (∃ i m, margins !! i = Some m ∧ (0 <= m)%Q ∧
     (∀ j m', (j < i)%nat → margins !! j = Some m' → (m' < 0)%Q) ∧
     partisan_bias D margins
     = Some (inject_Z (Z.of_nat i - 1) / inject_Z (Z.of_nat D) - 0.5)%Q) ∧
  iteration k self state y ≠ Raise UnboundLocalError_partisan_bias.
Proof.
  intros Hk Hcs HD Hit Ham Hseats margins. split_and!.
  - apply dem_seats_Ok_nonempty in Hseats.
    apply iterrows_length in Hit. rewrite length_zeros in Hit. lia.
  - by apply one_elem_of_extrapolated_margin.
  - destruct (extrapolated_margin_first_nonnegative k vote_share am Hk)
      as [i Hi].
    pose proof (partisan_bias_first D _ i Hi) as Hpb.
    destruct Hi as [(m & Hm & Hm0) Hfirst]. by exists i, m.
  - unfold iteration, num_districts_getitem.
    rewrite Hcs, HD. simpl. rewrite Hit. simpl. rewrite Ham. simpl.
    rewrite Hseats. simpl.
    destruct (colors_getitem (colors self) y) eqn:Hcolor; simpl.
    + destruct (extrapolated_margin_first_nonnegative k vote_share am Hk)
        as [i Hi].
      by rewrite (partisan_bias_first D _ i Hi).
    + by rewrite (colors_getitem_Raise _ _ _ Hcolor).
Qed.

Example sign_examples :
  sign 3 = "+3" ∧ sign (-2) = "-2" ∧ sign 0 = "+0" ∧ sign 120 = "+120".
Proof. by split_and!. Qed.

Lemma sign_nonnegative n : 0 ≤ n → sign n = "+" +:+ str n.
Proof. unfold sign. intros Hn. by rewrite (proj2 (Z.ltb_ge n 0) Hn). Qed.

Lemma sign_negative n : n < 0 → sign n = str n.
Proof. unfold sign. intros Hn. by rewrite (proj2 (Z.ltb_lt n 0) Hn). Qed.

Lemma round_nearest x :
  (x - (1 # 2) <= inject_Z (round x) <= x + (1 # 2))%Q.
Proof.
  pose proof (Qfloor_le x) as Hlo. pose proof (Qlt_floor x) as Hhi.
  unfold round. generalize dependent (Qfloor x). intros f Hlo Hhi.
  rewrite inject_Z_plus in Hhi. change (inject_Z 1) with 1%Q in Hhi.
  destruct (x - inject_Z f ?= 0.5)%Q eqn:E.
  - apply (proj2 (Qeq_alt _ _)) in E.
    destruct (Z.even f);
      [|rewrite inject_Z_plus; change (inject_Z 1) with 1%Q]; lra.
  - apply (proj2 (Qlt_alt _ _)) in E. lra.
  - apply (proj2 (Qgt_alt _ _)) in E. rewrite inject_Z_plus.
    change (inject_Z 1) with 1%Q. lra.
Qed.

(** C3. In every call of [draw] for a state with [D] districts, sorted by
    an algorithm of the default kind, the legend label of every curve
    drawn is made of the year and of the bias [(k - 1) / D - 0.5], where
    [k] is the smallest index (counted from 0, as [enumerate] does) of
    the curve's sorted margins whose margin is at least 0, as a rounded
    percentage written by [sign]: the number in the label is a whole
    number nearest to the percentage, at most one half away from it
    (which of the two when the percentage lies halfway is left open: it
    depends on the rounding of the float64 product).  [sign n] is the
    decimal string of [n], after a '+' when [n >= 0]: [sign 3] is "+3",
    [sign (-2)] is "-2", [sign 0] is "+0". *)
Theorem legend_partisan_bias k self (h : heap) state figsize o D
    xs ys alpha color lbl w wh :
  default_kind k →
  num_districts self !! state = Some D →
  step xs ys alpha color lbl w wh
    ∈ trace (draw k self h state figsize o).2 →
  (∃ y i m n, y ∈ years self ∧
     xs !! i = Some m ∧ (0 <= m)%Q ∧
     (∀ j m', (j < i)%nat → xs !! j = Some m' → (m' < 0)%Q) ∧
     let percent :=
       ((inject_Z (Z.of_nat i - 1) / inject_Z (Z.of_nat D) - 0.5) * 100)%Q in
     (percent - (1 # 2) <= inject_Z n <= percent + (1 # 2))%Q ∧
     lbl = str y +:+ "; " +:+ "D" +:+ sign n +:+ " partisan bias") ∧
  (∀ n, 0 ≤ n → sign n = "+" +:+ str n) ∧
  (∀ n, n < 0 → sign n = str n) ∧
  sign 3 = "+3" ∧ sign (-2) = "-2" ∧ sign 0 = "+0".
Proof.
  intros Hk HD
    (y & l & Hy & Hl%iteration_Ok & -> & _ & ->)%draw_step_computed.
  split; [|by auto using sign_nonnegative, sign_negative].
  destruct Hl. assert (locals.D l = D) as <- by congruence.
  rewrite computed_extrapolated_margin0 in *.
  destruct (extrapolated_margin_first_nonnegative k (locals.vote_share l)
              (locals.actual_margin l) Hk) as [i Hi].
  pose proof (partisan_bias_first (locals.D l) _ i Hi) as Hpb.
  destruct Hi as [(m & Hm & Hm0) Hfirst].
  exists y, i, m, (round (locals.partisan_bias l * 100)).
  split_and!; try done.
  assert (locals.partisan_bias l
          = div_districts (Z.of_nat i - 1) (locals.D l) - 0.5)%Q as Hbias
    by congruence.
  simpl. split; [|done].
  fold (div_districts (Z.of_nat i - 1) (locals.D l)). rewrite <- Hbias.
  apply round_nearest.
Qed.

(** ** Failures *)

Lemma iterrows_body_votes df vs dem rep c vs' dem' rep' :
  iterrows_body df (vs, dem, rep) c = Ok (vs', dem', rep') →
  (dem', rep') = (if String.eqb (party c) "democrat"
                  then (dem + candidatevotes c, rep)
                  else (dem, rep + candidatevotes c)).
Proof.
  unfold iterrows_body. intros H.
  destruct (getitem_column df "district"); [|done]. simpl in H.
  destruct (loc_getitem vs (district c) (party c)); [|done]. simpl in H.
  destruct (getitem_column df "candidatevotes"); [|done]. simpl in H.
  destruct (getitem_column df "totalvotes"); [|done]. simpl in H.
  destruct (true_div _ _ _); [|done]. simpl in H.
  by destruct (String.eqb _ _); injection H as _ <- <-.
Qed.

Lemma iterrows_votes df cs vs dem rep vs' dem' rep' :
  iterrows df (vs, dem, rep) cs = Ok (vs', dem', rep') →
  (dem', rep')
  = foldl (λ '(dem_votes, rep_votes) c,
             if String.eqb (party c) "democrat"
             then (dem_votes + candidatevotes c, rep_votes)
             else (dem_votes, rep_votes + candidatevotes c))
          (dem, rep) cs.
Proof.
  revert vs dem rep.
  induction cs as [|c cs IH]; intros vs dem rep; cbn [iterrows foldl].
  - by intros [= _ -> ->].
  - destruct (iterrows_body df (vs, dem, rep) c) as [[[vs1 dem1] rep1]|] eqn:E;
      simpl; [|done]. intros H%IH. rewrite H.
    apply iterrows_body_votes in E. by rewrite <- E.
Qed.

Lemma actual_margin_zero dem_votes rep_votes :
  dem_votes + rep_votes = 0 →
  actual_margin dem_votes rep_votes = Raise ZeroDivisionError_actual_margin.
Proof. unfold actual_margin, true_div. by intros ->. Qed.

(** C6. When the filtered major-party rows of a year of [self.years] have
    [dem_votes + rep_votes = 0], the iteration for that year raises
    without drawing anything, the exception is the [ZeroDivisionError]
    of the actual-margin computation whenever the loop over the rows got
    through, and the call of [draw] fails. *)
Theorem zero_votes_fails k self (h : heap) state figsize o y cs :
  y ∈ years self →
  major_party_candidates (house_data self) y state = Ok cs →
  (vote_sums cs).1 + (vote_sums cs).2 = 0 →
  (∀ o', ∃ e,
     draw_year k self state o' y = MkM [] (Raise e) ∧
     ∀ D st, num_districts self !! state = Some D →
             iterrows (house_data self) (zeros D, 0, 0) cs = Ok st →
             e = ZeroDivisionError_actual_margin) ∧
  ∃ e, outcome (draw k self h state figsize o).2 = Raise e.
Proof.
  intros Hy Hcs Hsum.
  assert (∀ o', ∃ e,
     draw_year k self state o' y = MkM [] (Raise e) ∧
     ∀ D st, num_districts self !! state = Some D →
             iterrows (house_data self) (zeros D, 0, 0) cs = Ok st →
             e = ZeroDivisionError_actual_margin) as Hyear.
  { intros o'. unfold draw_year, iteration, num_districts_getitem.
    rewrite Hcs. simpl.
    destruct (num_districts self !! state) as [D|] eqn:HD; simpl.
    - destruct (iterrows _ _ _) as [[[vs dem] rep]|e] eqn:Hit; simpl.
      + pose proof (iterrows_votes _ _ _ _ _ _ _ _ Hit) as Hv.
        fold (vote_sums cs) in Hv. rewrite <- Hv in Hsum. simpl in Hsum.
        rewrite (actual_margin_zero _ _ Hsum). simpl.
        by exists ZeroDivisionError_actual_margin.
      + exists e. split; [done|]. intros D' st [= <-]. congruence.
    - eexists. split; [done|]. intros D st [=]. }
  split; [done|].
  destruct (draw_cases k self h state figsize o) as [[e ->]|[o' ->]].
  - by exists e.
  - rewrite draw_axes_unfold. cbn [outcome].
    destruct (Hyear o') as (e & E & _).
    eapply for_each_Raise; [done|]. by rewrite E.
Qed.

(** C7, as amended. A call of [draw], on an instance that has a year,
    for a state that is not a key of [num_districts] fails, not at its
    start but in the first iteration of the loop over the years: the
    axes are set up, then the iteration raises before anything of a
    curve is computed or drawn, so that the trace holds the set-up of
    the axes only; the exception is the [KeyError] of
    [self.num_districts[state]] when the table has the three columns of
    the row filter, and the [KeyError] of a column otherwise. *)
Theorem unknown_state_fails k self (h : heap) state figsize o :
  num_districts self !! state = None →
  years self ≠ [] →
  h !! default_draw_values_loc = Some default_draw_values →
  ∃ o' e,
    (draw k self h state figsize o).2
    = MkM (axes_setup figsize o') (Raise e) ∧
    (∀ y, iteration k self state y = Raise e) ∧
    (e = KeyError_state state ∨ ∃ c, e = KeyError_column c) ∧
    ("year" ∈ columns (house_data self) →
     "state_po" ∈ columns (house_data self) →
     "party" ∈ columns (house_data self) →
     e = KeyError_state state).
Proof.
  intros HD Hyears Hd.
  destruct (resolve_options_spec h o Hd) as (o' & _ & E).
  assert (∃ e, (∀ y, iteration k self state y = Raise e) ∧
    (e = KeyError_state state ∨ ∃ c, e = KeyError_column c) ∧
    ("year" ∈ columns (house_data self) →
     "state_po" ∈ columns (house_data self) →
     "party" ∈ columns (house_data self) →
     e = KeyError_state state)) as (e & Hit & He).
  { unfold iteration, num_districts_getitem, major_party_candidates,
      getitem_column. rewrite HD.
    repeat case_bool_decide; simpl; eexists; (split; [done|]);
      split; eauto; done. }
  exists o', e. split; [|done].
  unfold draw. rewrite E. cbn [snd]. rewrite lift_Ok_bind, draw_axes_unfold.
  destruct (years self) as [|y ys]; [done|]. cbn [for_each].
  unfold mbind at 1, M_bind, draw_year. rewrite (Hit y). done.
Qed.

(** ** The seat count *)

Lemma elem_of_districts_won_from n vote_share d :
  d ∈ districts_won_from n vote_share ↔
  (n ≤ d)%nat ∧
  ∃ s, vote_share !! (d - n)%nat = Some s ∧ (republican s <= democrat s)%Q.
Proof.
  revert n. induction vote_share as [|s rest IH]; intros n; simpl.
  - split; [by intros ?%not_elem_of_nil|by intros (_ & ? & ? & _)].
  - assert (d ∈ districts_won_from (S n) rest ↔
            (n < d)%nat ∧ ∃ s', (s :: rest) !! (d - n)%nat = Some s' ∧
                                (republican s' <= democrat s')%Q) as Hrest.
    { rewrite IH. split.
      - intros (Hd & s' & Hs' & Hw). split; [lia|]. exists s'.
        split; [|done]. by replace (d - n)%nat with (S (d - S n)) by lia.
      - intros (Hd & s' & Hs' & Hw). split; [lia|]. exists s'.
        split; [|done].
        by replace (d - n)%nat with (S (d - S n)) in Hs' by lia. }
    destruct (wins s) eqn:Hw.
    + rewrite elem_of_cons, Hrest. split.
      * intros [->|(Hd & H)]; [|split; [lia|done]].
        split; [lia|]. exists s. rewrite Nat.sub_diag.
        split; [done|]. by apply Qle_bool_iff.
      * intros (Hd & s' & Hs' & Hw').
        destruct (decide (d = n)) as [->|Hne]; [by left|].
        right. split; [lia|]. by exists s'.
    + rewrite Hrest. split.
      * intros (Hd & H). split; [lia|done].
      * intros (Hd & s' & Hs' & Hw').
        destruct (decide (d = n)) as [->|Hne].
        -- rewrite Nat.sub_diag in Hs'. injection Hs' as <-.
           apply Qle_bool_iff in Hw'. unfold wins in Hw. congruence.
        -- split; [lia|]. by exists s'.
Qed.

Lemma NoDup_districts_won_from n vote_share :
  NoDup (districts_won_from n vote_share).
Proof.
  revert n. induction vote_share as [|s rest IH]; intros n; simpl.
  - constructor.
  - destruct (wins s); [|done]. constructor; [|done].
    rewrite elem_of_districts_won_from. lia.
Qed.

Lemma length_districts_won_from n vote_share :
  length (districts_won_from n vote_share)
  = length (filter (λ x, x = true) (wins <$> vote_share)).
Proof.
  revert n. induction vote_share as [|s rest IH]; intros n; simpl; [done|].
  rewrite filter_cons. destruct (wins s); simpl; by rewrite IH.
Qed.

Lemma dem_seats_spec vote_share :
  dem_seats vote_share
  = match length (democratic_districts vote_share) with
    | O => Raise KeyError_True
    | n => Ok n
    end.
Proof.
  unfold dem_seats, value_counts_True, democratic_districts.
  by rewrite length_districts_won_from.
Qed.

(** C2, as amended. For every table of vote shares, so for the table
    that the loop of lines 146-154 leaves, whatever the rounding of its
    sums: the seat count of lines 165-167 is the number of the districts
    1..D whose democratic share is at least the republican share (a tie
    counts as won), and it raises, the [KeyError] of
    [value_counts()[True]] and nothing else, if and only if there is no
    such district. *)
Theorem dem_seats_count vote_share :
  let D := length vote_share in
  let won := democratic_districts vote_share in
  NoDup won ∧
  (∀ d, d ∈ won ↔
     (1 ≤ d ≤ D)%nat ∧
     ∃ s, vote_share !! (d - 1)%nat = Some s ∧
          (republican s <= democrat s)%Q) ∧
  (dem_seats vote_share = Raise KeyError_True ↔ won = []) ∧
  (∀ e, dem_seats vote_share = Raise e → e = KeyError_True) ∧
  (∀ n, dem_seats vote_share = Ok n ↔ n = length won ∧ (1 ≤ n ≤ D)%nat).
Proof.
  intros D won.
  pose proof (dem_seats_spec vote_share) as Hseats. fold won in Hseats.
  assert (∀ d, d ∈ won ↔
     (1 ≤ d ≤ D)%nat ∧
     ∃ s, vote_share !! (d - 1)%nat = Some s ∧
          (republican s <= democrat s)%Q) as Hwon.
  { intros d. unfold won, democratic_districts.
    rewrite elem_of_districts_won_from. split.
    - intros (Hd & s & Hs & Hw). split; [|by exists s].
      apply lookup_lt_Some in Hs. unfold D. lia.
    - intros ([Hd _] & H). done. }
  assert (NoDup won) as Hnd by apply NoDup_districts_won_from.
  assert (length won ≤ D)%nat as Hle.
  { assert (length won ≤ length (seq 1 D))%nat as H;
      [|by rewrite length_seq in H].
    apply submseteq_length, NoDup_submseteq; [done|].
    intros d [Hd _]%Hwon. apply elem_of_seq. lia. }
  split_and!; try done.
  - rewrite Hseats. destruct won; simpl; split; done.
  - intros e. rewrite Hseats. destruct (length won); [|done].
    by intros [= <-].
  - intros n. rewrite Hseats. destruct (length won) as [|m] eqn:E.
    + split; [done|]. intros [-> ?]. lia.
    + split; [intros [= <-]; split; [done|lia]|by intros [-> _]].
Qed.

(** ** Districts without a row *)

Lemma loc_getitem_Ok vote_share d p x :
  loc_getitem vote_share d p = Ok x → 1 ≤ d.
Proof.
  unfold loc_getitem. destruct (1 <=? d) eqn:E; [|done].
  intros _. by apply Z.leb_le.
Qed.

Lemma iterrows_body_other df vs dem rep c vs' dem' rep' (d : nat) :
  iterrows_body df (vs, dem, rep) c = Ok (vs', dem', rep') →
  (1 ≤ d)%nat → district c ≠ Z.of_nat d →
  vs' !! (d - 1)%nat = vs !! (d - 1)%nat.
Proof.
  unfold iterrows_body. intros H Hd Hne.
  destruct (getitem_column df "district"); [|done]. simpl in H.
  destruct (loc_getitem vs (district c) (party c)) eqn:Hget; [|done].
  simpl in H. apply loc_getitem_Ok in Hget.
  destruct (getitem_column df "candidatevotes"); [|done]. simpl in H.
  destruct (getitem_column df "totalvotes"); [|done]. simpl in H.
  destruct (true_div _ _ _); [|done]. simpl in H.
  assert (Z.to_nat (district c - 1) ≠ (d - 1)%nat) by lia.
  destruct (String.eqb _ _); injection H as <- _ _;
    unfold loc_setitem; by rewrite list_lookup_alter_ne.
Qed.

Lemma iterrows_other df cs vs dem rep vs' dem' rep' (d : nat) :
  iterrows df (vs, dem, rep) cs = Ok (vs', dem', rep') →
  (1 ≤ d)%nat → (∀ c, c ∈ cs → district c ≠ Z.of_nat d) →
  vs' !! (d - 1)%nat = vs !! (d - 1)%nat.
Proof.
  revert vs dem rep.
  induction cs as [|c cs IH]; intros vs dem rep; cbn [iterrows].
  - by intros [= -> _ _].
  - destruct (iterrows_body df (vs, dem, rep) c) as [[[vs1 dem1] rep1]|] eqn:E;
      simpl; [|done]. intros H Hd Hcs.
    rewrite (IH _ _ _ H Hd) by (intros c' Hc'; apply Hcs; by right).
    eapply iterrows_body_other; [done..|]. apply Hcs. by left.
Qed.

Lemma major_party_candidates_elem_of df y state cs c :
  major_party_candidates df y state = Ok cs → c ∈ cs →
  c ∈ rows df ∧ year c = y ∧ state_po c = state ∧
  (party c = "republican" ∨ party c = "democrat").
Proof.
  unfold major_party_candidates. intros H.
  destruct (getitem_column df "year"); [|done]. simpl in H.
  destruct (getitem_column df "state_po"); [|done]. simpl in H.
  destruct (getitem_column df "party"); [|done]. simpl in H.
  injection H as <-. rewrite list_elem_of_filter. tauto.
Qed.

(** C8. In an iteration of [draw] that computes its locals, a district
    [d] of 1..D with no row of the year, the state and a major party
    keeps the share 0 for both parties, is one of the districts that the
    seat rule counts as democratic (0 >= 0), and [dem_seats] is the
    number of these districts. *)
Theorem absent_district_counted k self state y l (d : nat) :
  iteration k self state y = Ok l →
  (1 ≤ d ≤ locals.D l)%nat →
  (∀ c, c ∈ rows (house_data self) → year c = y → state_po c = state →
        party c = "republican" ∨ party c = "democrat" →
        district c ≠ Z.of_nat d) →
  locals.vote_share l !! (d - 1)%nat
  = Some {| democrat := 0; republican := 0 |} ∧
  d ∈ democratic_districts (locals.vote_share l) ∧
  NoDup (democratic_districts (locals.vote_share l)) ∧
  locals.dem_seats l = length (democratic_districts (locals.vote_share l)).
Proof.
  intros Hl%iteration_Ok [Hd1 HdD] Habsent. destruct Hl.
  assert (locals.vote_share l !! (d - 1)%nat
          = Some {| democrat := 0; republican := 0 |}) as Hrow.
  { rewrite (iterrows_other _ _ _ _ _ _ _ _ d computed_iterrows0 Hd1).
    - unfold zeros. apply lookup_replicate_2. lia.
    - intros c Hc.
      destruct (major_party_candidates_elem_of _ _ _ _ c computed_candidates0 Hc)
        as (? & ? & ? & ?).
      by apply Habsent. }
  assert (d ∈ democratic_districts (locals.vote_share l)) as Hwon.
  { apply elem_of_districts_won_from. split; [done|]. eexists. by split. }
  split_and!; try done.
  - apply NoDup_districts_won_from.
  - rewrite dem_seats_spec in computed_dem_seats0.
    destruct (length (democratic_districts (locals.vote_share l)));
      [done|]. by injection computed_dem_seats0.
Qed.

(** ** The order of equal margins *)


(** *** Filters *)

Lemma filter_none {A} (P : A → Prop) `{!∀ x, Decision (P x)} (l : list A) :
  (∀ x, x ∈ l → ¬ P x) → filter P l = [].
Proof.
  intros Hnone. destruct (filter P l) as [|x l'] eqn:E; [done|].
  assert (x ∈ filter P l) as [HP Hx]%list_elem_of_filter
    by (rewrite E; left).
  by destruct (Hnone x Hx).
Qed.

Lemma filter_fmap {A B} (f : A → B) (P : B → Prop) `{!∀ x, Decision (P x)}
    (l : list A) :
  filter P (f <$> l) = f <$> filter (λ x, P (f x)) l.
Proof.
  induction l as [|x l IH]; [done|]. rewrite fmap_cons, !filter_cons, IH.
  by destruct (decide (P (f x))).
Qed.

(** * The instances *)

(** The curve that [draw] draws for [CA]: the example of the
    specification. *)
Example draw_CA :
  (draw stable CA class_heap "CA" (4, 3) no_options).2
  = MkM (axes_setup (4, 3) pristine ++
         [step [-1; -400000 # 2000000; 400000 # 2000000; 1]%Q
               [0 # 2; 1 # 2; 2 # 2; 2 # 2]%Q (PFloat 0.6%Q) ["red"]
               "2016; D+0 partisan bias" 3 "post";
          scatter (0 # 200)%Q (1 # 2)%Q (PInt 200) ["red"];
          legend])
        (Ok ()).
Proof. vm_compute. reflexivity. Qed.

(** That curve is in the trace. *)
Lemma step_CA :
  step [-1; -400000 # 2000000; 400000 # 2000000; 1]%Q
       [0 # 2; 1 # 2; 2 # 2; 2 # 2]%Q (PFloat 0.6%Q) ["red"]
       "2016; D+0 partisan bias" 3 "post"
  ∈ trace (draw stable CA class_heap "CA" (4, 3) no_options).2.
Proof.
  vm_compute.
  repeat first [apply list_elem_of_here | apply list_elem_of_further].
Qed.

(** The margins of the curve of [CA] have the shape of C1. *)
Lemma sorted_margins_shape_CA :
  let xs := [-1; -400000 # 2000000; 400000 # 2000000; 1]%Q in
  length xs = (2 + 2)%nat ∧
  (∀ x, x ∈ xs → (-1 <= x <= 1)%Q) ∧
  (∀ i j x x', (i ≤ j)%nat → xs !! i = Some x → xs !! j = Some x' →
               (x <= x')%Q) ∧
  (∃ x, head xs = Some x ∧ (x == -1)%Q) ∧
  (∃ x, last xs = Some x ∧ (x == 1)%Q).
Proof.
  exact (sorted_margins_shape stable CA class_heap "CA" (4, 3) no_options 2
           _ _ _ _ _ _ _ stable_default_kind eq_refl step_CA).
Defined.

(** The scan over the margins of [CA] leaves [partisan_bias] assigned. *)
Lemma partisan_bias_defined_CA :
  ∃ i, partisan_bias 2 [-1; -400000 # 2000000; 400000 # 2000000; 1]%Q
       = Some (inject_Z (Z.of_nat i - 1) / inject_Z (Z.of_nat 2) - 0.5)%Q.
Proof.
  destruct (partisan_bias_defined stable CA "CA" 2016 _ 2 _ _ _ _ _
              stable_default_kind eq_refl eq_refl eq_refl eq_refl eq_refl)
    as (_ & _ & (i & m & _ & _ & _ & H) & _).
  exists i. exact H.
Defined.

(** The curve of [AZ]: the democrats win one district of three. *)
Lemma step_AZ :
  step [-1; -1800000 # 3000000; 600000 # 3000000; 1200000 # 3000000; 1]%Q
       [0 # 3; 1 # 3; 2 # 3; 3 # 3; 3 # 3]%Q (PFloat 0.6%Q) ["navy"]
       "2016; D-17 partisan bias" 3 "post"
  ∈ trace (draw stable AZ class_heap "AZ" (4, 3) no_options).2.
Proof.
  vm_compute.
  repeat first [apply list_elem_of_here | apply list_elem_of_further].
Qed.

(** The label of the curve of [AZ]: the bias is 1/3 - 1/2, which is
    -16.67 percent, and the label shows -17. *)
Lemma legend_partisan_bias_AZ :
  ∃ y i m n, y ∈ years AZ ∧
    [-1; -1800000 # 3000000; 600000 # 3000000; 1200000 # 3000000; 1]%Q !! i
    = Some m ∧
    (0 <= m)%Q ∧
    (∀ j m', (j < i)%nat →
       [-1; -1800000 # 3000000; 600000 # 3000000; 1200000 # 3000000; 1]%Q
         !! j = Some m' → (m' < 0)%Q) ∧
    ((inject_Z (Z.of_nat i - 1) / inject_Z (Z.of_nat 3) - 0.5) * 100
       - (1 # 2)
     <= inject_Z n
     <= (inject_Z (Z.of_nat i - 1) / inject_Z (Z.of_nat 3) - 0.5) * 100
        + (1 # 2))%Q ∧
    "2016; D-17 partisan bias"
    = str y +:+ "; " +:+ "D" +:+ sign n +:+ " partisan bias".
Proof.
  exact (proj1 (legend_partisan_bias stable AZ class_heap "AZ" (4, 3)
                  no_options 3 _ _ _ _ _ _ _ stable_default_kind eq_refl
                  step_AZ)).
Defined.

(** C2, the claim as stated fails: for [WY] the loop over the rows
    leaves the one district with the shares 0 and 0, which the seat rule
    counts as democratic, and the iteration fails all the same, at the
    actual margin. *)
Lemma iteration_fails_with_democratic_district :
  iteration stable WY "WY" 2016 = Raise ZeroDivisionError_actual_margin ∧
  democratic_districts (zeros 1) = [1%nat] ∧
  ¬ fails_iff_no_democratic_district stable WY "WY" 2016.
Proof.
  split_and!; [done..|]. intros H.
  specialize (H [] 1%nat (zeros 1) 0 0 eq_refl eq_refl eq_refl).
  destruct H as [H _]. discriminate H. by eexists.
Qed.

(** The seat count of [CA], district 1; and that of a table whose one
    row holds the float64 sums 0.3 for the democrats and 0.1 + 0.2 =
    0.30000000000000004 for the republicans: no seat, a [KeyError]. *)
Lemma dem_seats_count_CA :
  dem_seats [{| democrat := 60 # 100; republican := 40 # 100 |};
             {| democrat := 40 # 100; republican := 60 # 100 |}] = Ok 1%nat ∧
  dem_seats [{| democrat := 5404319552844595 # 18014398509481984;
                republican := 5404319552844596 # 18014398509481984 |}]
  = Raise KeyError_True.
Proof.
  split.
  - apply (proj2 (proj2 (proj2 (proj2 (dem_seats_count _))))).
    vm_compute. split; [reflexivity|]. split; apply Nat.leb_le; reflexivity.
  - apply (proj1 (proj2 (proj2 (dem_seats_count _)))). reflexivity.
Defined.

(** [draw] fails for [WY], which has no major-party vote in 2016. *)
Lemma zero_votes_fails_WY :
  ∃ e, outcome (draw stable WY class_heap "WY" (4, 3) no_options).2 = Raise e.
Proof.
  refine (proj2 (zero_votes_fails stable WY class_heap "WY" (4, 3) no_options
                   2016 [] _ eq_refl eq_refl)).
  apply list_elem_of_here.
Defined.

(** C7, the claim as stated fails: [self.num_districts[state]] is first
    evaluated at line 139, inside the loop over the years.  A call of
    [draw] on [CA] for "TX" makes the seven calls that set the axes up
    before it raises; and once the column "year" is dropped, it raises
    the [KeyError] of that column, from the row filter of line 134, and
    never looks the state up. *)
Lemma state_not_validated_at_start :
  (draw stable CA class_heap "TX" (4, 3) no_options).2
  = MkM (axes_setup (4, 3) pristine) (Raise (KeyError_state "TX")) ∧
  ¬ validated_at_start stable CA class_heap "TX" (4, 3) no_options ∧
  (draw stable (drop_columns CA ["year"]).1 class_heap "TX" (4, 3)
     no_options).2
  = MkM (axes_setup (4, 3) pristine) (Raise (KeyError_column "year")) ∧
  ¬ validated_at_start stable (drop_columns CA ["year"]).1 class_heap "TX"
      (4, 3) no_options.
Proof.
  split_and!.
  - vm_compute. reflexivity.
  - intros H. specialize (H eq_refl). vm_compute in H. discriminate H.
  - vm_compute. reflexivity.
  - intros H. specialize (H eq_refl). vm_compute in H. discriminate H.
Qed.

(** [draw] on [CA] fails for the state "TX", after the set-up of the
    axes. *)
Lemma unknown_state_fails_TX :
  ∃ o' e,
    (draw stable CA class_heap "TX" (4, 3) no_options).2
    = MkM (axes_setup (4, 3) o') (Raise e) ∧ e = KeyError_state "TX".
Proof.
  destruct (unknown_state_fails stable CA class_heap "TX" (4, 3) no_options)
    as (o' & e & Hdraw & _ & _ & He); [reflexivity|discriminate|reflexivity|].
  exists o', e. split; [exact Hdraw|].
  apply He; vm_compute;
    repeat first [apply list_elem_of_here | apply list_elem_of_further].
Defined.

(** District 3 of [NM], which has no row, is counted as democratic. *)
Lemma absent_district_counted_NM :
  ∃ l, iteration stable NM "NM" 2016 = Ok l ∧
       3%nat ∈ democratic_districts (locals.vote_share l) ∧
       locals.dem_seats l
       = length (democratic_districts (locals.vote_share l)).
Proof.
  eexists. split; [vm_compute; reflexivity|].
  refine (let H := absent_district_counted stable NM "NM" 2016 _ 3 _ _ _ in
          conj (proj1 (proj2 H)) (proj2 (proj2 (proj2 H)))).
  - vm_compute. reflexivity.
  - simpl. lia.
  - intros c Hc _ _ _. simpl in Hc.
    repeat (apply elem_of_cons in Hc as [->|Hc]; [simpl; lia|]).
    by apply not_elem_of_nil in Hc.
Defined.

(** Dropping "state" and a column that [CA] does not have leaves [CA] as
    it is, "state" included. *)
Lemma drop_columns_atomic_CA :
  ∃ missing,
    drop_columns CA ["state"; "writein"]
    = (CA, Raise (KeyError_not_found_in_axis missing)).
Proof.
  destruct (drop_columns_atomic CA ["state"; "writein"] "writein")
    as (missing & _ & H).
  - apply list_elem_of_further, list_elem_of_here.
  - simpl. intros Hc.
    repeat (apply elem_of_cons in Hc as [Hc|Hc]; [discriminate Hc|]).
    by apply not_elem_of_nil in Hc.
  - by exists missing.
Defined.

(** * Further properties *)

(** ** [drop_columns], and [draw] after it *)

Ltac elem_of_list :=
  simpl; repeat first [apply list_elem_of_here | apply list_elem_of_further].

Lemma filter_all {A} (P : A → Prop) `{!∀ x, Decision (P x)} (l : list A) :
  (∀ x, x ∈ l → P x) → filter P l = l.
Proof.
  induction l as [|x l IH]; intros Hall; [done|].
  rewrite filter_cons_True by (apply Hall; left).
  f_equal. apply IH. intros x' Hx'. apply Hall. by right.
Qed.

Lemma Index_drop_Ok axis labels new_axis :
  Index_drop axis labels = Ok new_axis ↔
  (∀ c, c ∈ labels → c ∈ axis) ∧ new_axis = filter (λ c, c ∉ labels) axis.
Proof.
  unfold Index_drop. destruct (filter (λ l, l ∉ axis) labels) as [|m ms] eqn:E.
  - split.
    + intros [= <-]. split; [|done]. intros c Hc.
      destruct (decide (c ∈ axis)) as [|Hn]; [done|].
      assert (c ∈ filter (λ l, l ∉ axis) labels) as Hin
        by by apply list_elem_of_filter.
      rewrite E in Hin. by apply not_elem_of_nil in Hin.
    + by intros [_ ->].
  - split; [done|]. intros [Hall _].
    assert (m ∈ filter (λ l, l ∉ axis) labels) as [Hm Hl]%list_elem_of_filter
      by (rewrite E; left).
    destruct Hm. by apply Hall.
Qed.

(** X1. [drop_columns] succeeds exactly when every listed label is a
    column of the table; the table then has the columns that are not
    listed, in their former order, and none of the listed ones, and the
    rows, the district counts, the years and the colours are as
    before. *)
Theorem drop_columns_Ok (self self' : PartisanPlot)
    (dropped_columns : list string) :
  ((drop_columns self dropped_columns).2 = Ok () ↔
   ∀ c, c ∈ dropped_columns → c ∈ columns (house_data self)) ∧
  (drop_columns self dropped_columns = (self', Ok ()) →
   columns (house_data self') `sublist_of` columns (house_data self) ∧
   (∀ c, c ∈ columns (house_data self') ↔
         c ∈ columns (house_data self) ∧ c ∉ dropped_columns) ∧
   rows (house_data self') = rows (house_data self) ∧
   num_districts self' = num_districts self ∧
   years self' = years self ∧ colors self' = colors self).
Proof.
  unfold drop_columns, DataFrame_drop.
  destruct (Index_drop (columns (house_data self)) dropped_columns)
    as [new_axis|e] eqn:E; simpl.
  - apply Index_drop_Ok in E as [Hall ->]. split; [done|].
    intros [= <-]. simpl. split_and!; try done.
    + apply sublist_filter.
    + intros c. by rewrite list_elem_of_filter, (comm and).
  - split; [|done]. split; [done|]. intros Hall.
    assert (Index_drop (columns (house_data self)) dropped_columns
            = Ok (filter (λ c, c ∉ dropped_columns) (columns (house_data self))))
      as E' by by apply Index_drop_Ok.
    congruence.
Qed.

(** X2. A second [drop_columns] of the same labels, after one that
    succeeded, finds none of them: it raises, naming them all, and
    leaves the object as the first call left it. *)
Theorem drop_columns_twice (self self' : PartisanPlot)
    (dropped_columns : list string) :
  dropped_columns ≠ [] →
  drop_columns self dropped_columns = (self', Ok ()) →
  drop_columns self' dropped_columns
  = (self', Raise (KeyError_not_found_in_axis dropped_columns)).
Proof.
  intros Hne. unfold drop_columns at 1, DataFrame_drop.
  destruct (Index_drop (columns (house_data self)) dropped_columns)
    as [new_axis|e] eqn:E; simpl; [|done].
  apply Index_drop_Ok in E as [_ ->]. intros [= <-].
  unfold drop_columns, DataFrame_drop, Index_drop. simpl.
  rewrite filter_all.
  - by destruct dropped_columns.
  - by intros l Hl [Hn _]%list_elem_of_filter.
Qed.

Lemma getitem_column_ext df df' c :
  (c ∈ columns df ↔ c ∈ columns df') →
  getitem_column df c = getitem_column df' c.
Proof. intros H. unfold getitem_column. by rewrite (bool_decide_ext _ _ H). Qed.

Lemma iterrows_ext df df' st cs :
  (∀ c, c ∈ draw_columns → c ∈ columns df ↔ c ∈ columns df') →
  iterrows df st cs = iterrows df' st cs.
Proof.
  intros H. revert st. induction cs as [|c cs IH]; intros st; [done|].
  cbn [iterrows]. destruct st as [[vs dem] rep]. unfold iterrows_body.
  rewrite (getitem_column_ext df df' "district"),
    (getitem_column_ext df df' "candidatevotes"),
    (getitem_column_ext df df' "totalvotes")
    by (apply H; unfold draw_columns, filter_columns; elem_of_list).
  destruct (getitem_column df' "district"); [|done]. simpl.
  destruct (loc_getitem vs (district c) (party c)); [|done]. simpl.
  destruct (getitem_column df' "candidatevotes"); [|done]. simpl.
  destruct (getitem_column df' "totalvotes"); [|done]. simpl.
  destruct (true_div _ _ _); [|done]. simpl.
  destruct (String.eqb _ _); simpl; apply IH.
Qed.

(** [draw] reads an instance through the rows of the table, the presence
    of six columns, the district counts, the years and the colours. *)
Lemma iteration_ext k self self' state y :
  rows (house_data self') = rows (house_data self) →
  (∀ c, c ∈ draw_columns →
        c ∈ columns (house_data self') ↔ c ∈ columns (house_data self)) →
  num_districts self' = num_districts self →
  colors self' = colors self →
  iteration k self' state y = iteration k self state y.
Proof.
  intros Hrows Hcols HD Hcolors.
  unfold iteration, major_party_candidates, num_districts_getitem.
  rewrite (getitem_column_ext _ (house_data self) "year"),
    (getitem_column_ext _ (house_data self) "state_po"),
    (getitem_column_ext _ (house_data self) "party")
    by (apply Hcols; unfold draw_columns, filter_columns; elem_of_list).
  rewrite Hrows, HD, Hcolors.
  destruct (getitem_column (house_data self) "year"); [|done]. simpl.
  destruct (getitem_column (house_data self) "state_po"); [|done]. simpl.
  destruct (getitem_column (house_data self) "party"); [|done]. simpl.
  destruct (num_districts self !! state); [|done]. simpl.
  by rewrite (iterrows_ext _ (house_data self)).
Qed.

Lemma for_each_ext {A} (l : list A) (body body' : A → M unit) :
  (∀ x, x ∈ l → body x = body' x) → for_each l body = for_each l body'.
Proof.
  induction l as [|x l IH]; intros H; [done|]. cbn [for_each].
  rewrite (H x) by left. unfold mbind, M_bind.
  destruct (outcome (body' x)); [|done].
  rewrite IH; [done|]. intros x' Hx'. apply H. by right.
Qed.

Lemma draw_ext k self self' (h : heap) state figsize o :
  rows (house_data self') = rows (house_data self) →
  (∀ c, c ∈ draw_columns →
        c ∈ columns (house_data self') ↔ c ∈ columns (house_data self)) →
  num_districts self' = num_districts self →
  years self' = years self →
  colors self' = colors self →
  draw k self' h state figsize o = draw k self h state figsize o.
Proof.
  intros Hrows Hcols HD Hyears Hcolors. unfold draw.
  destruct (resolve_options h o) as [h' [o'|e]]; [|done].
  f_equal. rewrite !lift_Ok_bind, !draw_axes_unfold, Hyears.
  rewrite (for_each_ext _ (draw_year k self' state o')
             (draw_year k self state o')); [done|].
  intros y _. unfold draw_year. by rewrite (iteration_ext k self self').
Qed.

(** X3. Dropping columns that [draw] does not read changes nothing of
    what [draw] does: after a [drop_columns] that lists none of the six
    columns year, state_po, party, district, candidatevotes, totalvotes,
    every call of [draw] has the trace and the outcome that it had
    before. *)
Theorem drop_columns_unread_draw k (self self' : PartisanPlot)
    (dropped_columns : list string) (h : heap) state figsize o :
  drop_columns self dropped_columns = (self', Ok ()) →
  (∀ c, c ∈ draw_columns → c ∉ dropped_columns) →
  draw k self' h state figsize o = draw k self h state figsize o.
Proof.
  intros Hdrop Hunread. unfold drop_columns, DataFrame_drop in Hdrop.
  destruct (Index_drop (columns (house_data self)) dropped_columns)
    as [new_axis|e] eqn:E; simpl in Hdrop; [|done].
  apply Index_drop_Ok in E as [_ ->]. injection Hdrop as <-.
  apply draw_ext; simpl; try done.
  intros c Hc. rewrite list_elem_of_filter. split; [tauto|].
  intros Hin. split; [by apply Hunread|done].
Qed.

(** Dropping the column "state" of [CA], then dropping it again. *)
Lemma drop_columns_twice_CA :
  ∃ self', drop_columns CA ["state"] = (self', Ok ()) ∧
    drop_columns self' ["state"]
    = (self', Raise (KeyError_not_found_in_axis ["state"])).
Proof.
  eexists. split; [vm_compute; reflexivity|].
  apply (drop_columns_twice CA); [discriminate|vm_compute; reflexivity].
Defined.

(** [draw] on [CA] after the column "state" is dropped. *)
Lemma drop_columns_unread_draw_CA :
  ∃ self', drop_columns CA ["state"] = (self', Ok ()) ∧
    draw stable self' class_heap "CA" (4, 3) no_options
    = draw stable CA class_heap "CA" (4, 3) no_options.
Proof.
  eexists. split; [vm_compute; reflexivity|].
  apply (drop_columns_unread_draw stable CA _ ["state"]);
    [vm_compute; reflexivity|].
  intros c Hc Hin. apply list_elem_of_singleton in Hin as ->.
  unfold draw_columns, filter_columns in Hc. simpl in Hc.
  repeat (apply elem_of_cons in Hc as [Hc|Hc]; [discriminate Hc|]).
  by apply not_elem_of_nil in Hc.
Defined.

(** X4. On an instance whose table lacks one of the columns year,
    state_po, party of the row filter (after [drop_columns] removed it,
    say), a call of [draw] sets the axes up and then fails in its first
    iteration with the [KeyError] of the first of these columns that is
    missing. *)
Theorem draw_without_filter_column k self (h : heap) state figsize o c :
  c ∈ filter_columns →
  c ∉ columns (house_data self) →
  years self ≠ [] →
  h !! default_draw_values_loc = Some default_draw_values →
  ∃ o' c',
    head (filter (λ c, c ∉ columns (house_data self)) filter_columns)
    = Some c' ∧
    (draw k self h state figsize o).2
    = MkM (axes_setup figsize o') (Raise (KeyError_column c')).
Proof.
  intros Hc Hmissing Hyears Hd.
  destruct (resolve_options_spec h o Hd) as (o' & _ & E).
  assert (∃ c', head (filter (λ c, c ∉ columns (house_data self))
                             filter_columns) = Some c' ∧
                ∀ y, iteration k self state y = Raise (KeyError_column c'))
    as (c' & Hc' & Hit).
  { unfold iteration, major_party_candidates, getitem_column, filter_columns
      in *.
    rewrite !filter_cons, filter_nil.
    repeat (apply elem_of_cons in Hc as [->|Hc]);
      [..|by apply not_elem_of_nil in Hc];
      repeat case_bool_decide; repeat case_decide; try done;
      eexists; (split; [done|]); done. }
  exists o', c'. split; [done|].
  unfold draw. rewrite E. cbn [snd]. rewrite lift_Ok_bind, draw_axes_unfold.
  destruct (years self) as [|y ys]; [done|]. cbn [for_each].
  unfold mbind at 1, M_bind, draw_year. rewrite (Hit y). done.
Qed.

(** [draw] on [CA] once the column "party" is dropped. *)
Lemma draw_without_filter_column_CA :
  ∃ self' o', drop_columns CA ["party"] = (self', Ok ()) ∧
    (draw stable self' class_heap "CA" (4, 3) no_options).2
    = MkM (axes_setup (4, 3) o') (Raise (KeyError_column "party")).
Proof.
  eexists.
  destruct (draw_without_filter_column stable
              (drop_columns CA ["party"]).1 class_heap "CA" (4, 3)
              no_options "party") as (o' & c' & Hc' & Hdraw).
  - unfold filter_columns. elem_of_list.
  - vm_compute. intros Hc.
    repeat (apply elem_of_cons in Hc as [Hc|Hc]; [discriminate Hc|]).
    by apply not_elem_of_nil in Hc.
  - discriminate.
  - reflexivity.
  - exists o'. split; [vm_compute; reflexivity|].
    vm_compute in Hc'. injection Hc' as <-. exact Hdraw.
Defined.

(** ** The keyword arguments of [draw] *)

Lemma options_list_inj o o' : options_list o = options_list o' → o = o'.
Proof. destruct o, o'. unfold options_list. simpl. congruence. Qed.

(** X5. With the class attribute in place, the keyword arguments of a
    call of [draw] resolve without raising: an argument that is not
    [None] is kept, an argument that is [None] becomes the value of
    [default_draw_values] at its position; the heap keeps all its lists
    and gains one, the argument list of the call. *)
Theorem resolve_options_Ok (h : heap) (o : options) :
  h !! default_draw_values_loc = Some default_draw_values →
  ∃ o',
    resolve_options h o = (h ++ [options_list o'], Ok o') ∧
    axescolor o' = (if is_None (axescolor o) then PStr "k" else axescolor o) ∧
    dotsize o' = (if is_None (dotsize o) then PInt 200 else dotsize o) ∧
    axeslinestyle o'
    = (if is_None (axeslinestyle o) then PStr "-" else axeslinestyle o) ∧
    axeslinewidth o'
    = (if is_None (axeslinewidth o) then PFloat 0.2%Q else axeslinewidth o) ∧
    stepalpha o'
    = (if is_None (stepalpha o) then PFloat 0.6%Q else stepalpha o) ∧
    num_yticks o' = (if is_None (num_yticks o) then PInt 11 else num_yticks o).
Proof.
  intros Hd. destruct (resolve_options_spec h o Hd) as (o' & Ho' & E).
  exists o'. split; [done|]. destruct o'. unfold options_list in Ho'.
  simpl in *. by injection Ho' as -> -> -> -> -> ->.
Qed.

(** A call that sets the opacity of the steps and nothing else. *)
Lemma resolve_options_Ok_stepalpha :
  ∃ o', (resolve_options class_heap
           {| axescolor := PNone; dotsize := PNone; axeslinestyle := PNone;
              axeslinewidth := PNone; stepalpha := PFloat 1;
              num_yticks := PNone |}).2 = Ok o' ∧
        stepalpha o' = PFloat 1 ∧ dotsize o' = PInt 200.
Proof.
  destruct (resolve_options_Ok class_heap
              {| axescolor := PNone; dotsize := PNone; axeslinestyle := PNone;
                 axeslinewidth := PNone; stepalpha := PFloat 1;
                 num_yticks := PNone |} eq_refl)
    as (o' & E & _ & Hdot & _ & _ & Halpha & _).
  exists o'. rewrite E. by split_and!.
Defined.

(** X6. What a call of [draw] draws and how it ends do not depend on the
    calls of [draw] made before it, whatever its own options are: it
    does then what it does as the first call of the program. *)
Theorem draw_independent_of_earlier_calls k (earlier : list call)
    self state figsize o :
  (draw k self (draws k class_heap earlier) state figsize o).2
  = (draw k self class_heap state figsize o).2.
Proof.
  assert (draws k class_heap earlier !! default_draw_values_loc
          = Some default_draw_values) as Hd
    by by apply draws_default_draw_values.
  destruct (resolve_options_spec _ o Hd) as (o1 & Ho1 & E1).
  destruct (resolve_options_spec class_heap o eq_refl) as (o2 & Ho2 & E2).
  unfold draw. rewrite E1, E2. cbn [snd].
  by rewrite (options_list_inj o1 o2) by congruence.
Qed.

(** ** The loop over the rows *)

Lemma loc_getitem_Ok_iff vote_share d p :
  (∃ x, loc_getitem vote_share d p = Ok x) ↔
  1 ≤ d ≤ Z.of_nat (length vote_share).
Proof.
  unfold loc_getitem. destruct (1 <=? d) eqn:E.
  - apply Z.leb_le in E.
    destruct (vote_share !! Z.to_nat (d - 1)) as [s|] eqn:Hs.
    + apply lookup_lt_Some in Hs. split; [lia|]. by eexists.
    + apply lookup_ge_None in Hs. split; [by intros [? ?]|lia].
  - apply Z.leb_gt in E. split; [by intros [? ?]|lia].
Qed.

Lemma loc_getitem_Raise vote_share d p e :
  loc_getitem vote_share d p = Raise e → e = KeyError_district d.
Proof.
  unfold loc_getitem.
  by destruct (if 1 <=? d then _ else _); [|intros [= <-]].
Qed.

(** One iteration of the loop, when the three columns are there. *)
Lemma iterrows_body_cases df vs dem rep c :
  "district" ∈ columns df → "candidatevotes" ∈ columns df →
  "totalvotes" ∈ columns df →
  iterrows_body df (vs, dem, rep) c
  = if decide (1 ≤ district c ≤ Z.of_nat (length vs)) then
      if decide (totalvotes c = 0) then Raise ZeroDivisionError_share
      else Ok (alter (add_share c) (Z.to_nat (district c - 1)) vs,
               if String.eqb (party c) "democrat"
               then dem + candidatevotes c else dem,
               if String.eqb (party c) "democrat"
               then rep else rep + candidatevotes c)
    else Raise (KeyError_district (district c)).
Proof.
  intros H1 H2 H3. unfold iterrows_body, getitem_column.
  rewrite !bool_decide_eq_true_2 by done. simpl.
  destruct (loc_getitem vs (district c) (party c)) as [old|e] eqn:Hget; simpl.
  - rewrite decide_True by (apply (loc_getitem_Ok_iff vs _ (party c)); eauto).
    unfold true_div. destruct (decide (totalvotes c = 0)) as [->|Hne]; [done|].
    rewrite (proj2 (Z.eqb_neq _ _) Hne). simpl.
    assert (loc_setitem vs (district c) (party c)
              (old + inject_Z (candidatevotes c) / inject_Z (totalvotes c))
            = alter (add_share c) (Z.to_nat (district c - 1)) vs) as ->.
    { unfold loc_setitem, loc_getitem in *.
      destruct (1 <=? district c); [|done].
      destruct (vs !! Z.to_nat (district c - 1)) as [s|] eqn:Hs; [|done].
      injection Hget as <-. apply list_eq. intros i.
      destruct (decide (i = Z.to_nat (district c - 1))) as [->|Hi].
      - rewrite !list_lookup_alter_eq, Hs. simpl. unfold add_share, share.
        by destruct (String.eqb _ _).
      - by rewrite !list_lookup_alter_ne. }
    by destruct (String.eqb _ _).
  - rewrite (loc_getitem_Raise _ _ _ _ Hget).
    rewrite decide_False; [done|]. intros Hd.
    apply (loc_getitem_Ok_iff vs _ (party c)) in Hd as [x Hx]. congruence.
Qed.

Lemma iterrows_Ok_iff df vs dem rep cs :
  "district" ∈ columns df → "candidatevotes" ∈ columns df →
  "totalvotes" ∈ columns df →
  (∃ st, iterrows df (vs, dem, rep) cs = Ok st) ↔
  ∀ c, c ∈ cs → 1 ≤ district c ≤ Z.of_nat (length vs) ∧ totalvotes c ≠ 0.
Proof.
  intros H1 H2 H3. revert vs dem rep.
  induction cs as [|c cs IH]; intros vs dem rep; cbn [iterrows].
  - split; [by intros _ c ?%not_elem_of_nil|by eexists].
  - rewrite iterrows_body_cases by done.
    destruct (decide (1 ≤ district c ≤ _)) as [Hd|Hd].
    + destruct (decide (totalvotes c = 0)) as [Ht|Ht]; simpl.
      * split; [by intros [? ?]|]. intros Hall.
        destruct (Hall c) as [_ ?]; [left|done].
      * rewrite IH, length_alter. split.
        -- intros Hall c' [->|Hc']%elem_of_cons; [done|by apply Hall].
        -- intros Hall c' Hc'. apply Hall. by right.
    + simpl. split; [by intros [? ?]|]. intros Hall.
      destruct (Hall c) as [? _]; [left|done].
Qed.

Lemma iterrows_Raise df vs dem rep cs e :
  "district" ∈ columns df → "candidatevotes" ∈ columns df →
  "totalvotes" ∈ columns df →
  iterrows df (vs, dem, rep) cs = Raise e →
  ∃ c, c ∈ cs ∧
    (e = KeyError_district (district c) ∧
       ¬ (1 ≤ district c ≤ Z.of_nat (length vs)) ∨
     e = ZeroDivisionError_share ∧ totalvotes c = 0).
Proof.
  intros H1 H2 H3. revert vs dem rep.
  induction cs as [|c cs IH]; intros vs dem rep; cbn [iterrows]; [done|].
  rewrite iterrows_body_cases by done.
  destruct (decide (1 ≤ district c ≤ _)) as [Hd|Hd].
  - destruct (decide (totalvotes c = 0)) as [Ht|Ht]; simpl.
    + intros [= <-]. exists c. split; [left|by right].
    + intros (c' & Hc' & H)%IH. rewrite length_alter in H.
      exists c'. split; [by right|done].
  - simpl. intros [= <-]. exists c. split; [left|by left].
Qed.

(** X7. With the columns district, candidatevotes and totalvotes in the
    table, the loop of lines 146-154 over the filtered rows gets through
    exactly when every row has a district in 1..D and a total vote that
    is not 0; otherwise it raises for a row of the kind that stops it:
    the [KeyError] of its district (so for the district 0 of an at-large
    seat), or the [ZeroDivisionError] of its share. *)
Theorem iterrows_gets_through df D cs :
  "district" ∈ columns df → "candidatevotes" ∈ columns df →
  "totalvotes" ∈ columns df →
  ((∃ st, iterrows df (zeros D, 0, 0) cs = Ok st) ↔
   ∀ c, c ∈ cs → 1 ≤ district c ≤ Z.of_nat D ∧ totalvotes c ≠ 0) ∧
  (∀ e, iterrows df (zeros D, 0, 0) cs = Raise e →
     ∃ c, c ∈ cs ∧
       (e = KeyError_district (district c) ∧
          ¬ (1 ≤ district c ≤ Z.of_nat D) ∨
        e = ZeroDivisionError_share ∧ totalvotes c = 0)).
Proof.
  intros H1 H2 H3. split.
  - rewrite iterrows_Ok_iff by done. by rewrite length_zeros.
  - intros e He. apply iterrows_Raise in He; [|done..].
    by rewrite length_zeros in He.
Qed.

(** The rows of [VT] are numbered 0: the loop does not get through. *)
Lemma iterrows_gets_through_VT :
  ¬ ∃ st, iterrows (house_data VT) (zeros 1, 0, 0) (rows (house_data VT))
          = Ok st.
Proof.
  intros H.
  pose proof (proj1 (proj1 (iterrows_gets_through (house_data VT) 1
                              (rows (house_data VT))
                              ltac:(elem_of_list) ltac:(elem_of_list)
                              ltac:(elem_of_list))) H) as Hall.
  destruct (Hall {| year := 2016; state_po := "VT"; district := 0;
                 party := "democrat"; candidatevotes := 80;
                 totalvotes := 100 |}) as [[H0 _] _]; [left|].
  simpl in H0. lia.
Defined.

Lemma iterrows_body_Ok df vs dem rep c st' :
  iterrows_body df (vs, dem, rep) c = Ok st' →
  1 ≤ district c ≤ Z.of_nat (length vs) ∧ totalvotes c ≠ 0 ∧
  st' = (alter (add_share c) (Z.to_nat (district c - 1)) vs,
         if String.eqb (party c) "democrat" then dem + candidatevotes c
         else dem,
         if String.eqb (party c) "democrat" then rep
         else rep + candidatevotes c).
Proof.
  intros H.
  assert ("district" ∈ columns df ∧ "candidatevotes" ∈ columns df ∧
          "totalvotes" ∈ columns df) as (H1 & H2 & H3).
  { unfold iterrows_body, getitem_column in H.
    repeat case_bool_decide; try done; simpl in H;
      by destruct (loc_getitem _ _ _). }
  rewrite iterrows_body_cases in H by done.
  destruct (decide (1 ≤ district c ≤ _)); [|done].
  destruct (decide (totalvotes c = 0)); [done|]. by injection H as <-.
Qed.

Lemma rows_of_cons d dem c cs :
  rows_of d dem (c :: cs)
  = if decide (district c = d ∧ String.eqb (party c) "democrat" = dem)
    then c :: rows_of d dem cs else rows_of d dem cs.
Proof. unfold rows_of. by rewrite filter_cons. Qed.

Lemma iterrows_accumulated df vs dem rep cs vs' dem' rep' (d : nat) :
  iterrows df (vs, dem, rep) cs = Ok (vs', dem', rep') →
  (1 ≤ d)%nat →
  vs' !! (d - 1)%nat
  = (λ s, {| democrat :=
               accumulated (democrat s) (rows_of (Z.of_nat d) true cs);
             republican :=
               accumulated (republican s) (rows_of (Z.of_nat d) false cs) |})
    <$> vs !! (d - 1)%nat.
Proof.
  intros H Hd. revert vs dem rep H.
  induction cs as [|c cs IH]; intros vs dem rep; cbn [iterrows].
  - intros [= -> _ _]. destruct (vs' !! (d - 1)%nat) as [[]|]; done.
  - destruct (iterrows_body df (vs, dem, rep) c) as [[[vs1 dem1] rep1]|]
      eqn:E; simpl; [|done].
    apply iterrows_body_Ok in E as ([Hc1 _] & _ & [= -> _ _]).
    intros H%IH. rewrite H, !rows_of_cons.
    destruct (decide (district c = Z.of_nat d)) as [Hcd|Hcd].
    + replace (Z.to_nat (district c - 1)) with (d - 1)%nat by lia.
      rewrite list_lookup_alter_eq.
      destruct (vs !! (d - 1)%nat) as [s|]; [|done]. simpl. f_equal.
      unfold add_share.
      destruct (String.eqb (party c) "democrat") eqn:Ep.
      * rewrite decide_True by by split.
        by rewrite decide_False by (intros [_ ?]; congruence).
      * rewrite decide_False by (intros [_ ?]; congruence).
        by rewrite decide_True by by split.
    + rewrite list_lookup_alter_ne by lia.
      by rewrite !decide_False by by intros [? _].
Qed.

(** X8. In an iteration of [draw] that computes its locals, the row of
    [vote_share] for a district [d] of 1..D holds, for each of the two
    parties, the shares candidatevotes / totalvotes of all the filtered
    rows of [d] and that party, added to 0 in the order of the table
    (several rows of one party in one district add up), and [dem_votes]
    and [rep_votes] are the sums of the votes of the rows of each
    party. *)
Theorem vote_share_accumulates k self state y l (d : nat) :
  iteration k self state y = Ok l →
  (1 ≤ d ≤ locals.D l)%nat →
  let cs := locals.major_party_candidates l in
  locals.vote_share l !! (d - 1)%nat
  = Some {| democrat := accumulated 0 (rows_of (Z.of_nat d) true cs);
            republican := accumulated 0 (rows_of (Z.of_nat d) false cs) |} ∧
  (locals.dem_votes l, locals.rep_votes l) = vote_sums cs.
Proof.
  intros Hl%iteration_Ok [Hd1 HdD] cs. destruct Hl. split.
  - rewrite (iterrows_accumulated _ _ _ _ _ _ _ _ d computed_iterrows0 Hd1).
    unfold zeros. rewrite lookup_replicate_2 by lia. done.
  - by eapply iterrows_votes.
Qed.

(** The two democratic candidates of the district of [LA] add up. *)
Lemma vote_share_accumulates_LA :
  ∃ l, iteration stable LA "LA" 2016 = Ok l ∧
    locals.vote_share l !! 0%nat
    = Some {| democrat := 0 + 30 / 100 + 25 / 100;
              republican := 0 + 45 / 100 |}%Q ∧
    (locals.dem_votes l, locals.rep_votes l) = (55, 45).
Proof.
  eexists. split; [vm_compute; reflexivity|].
  refine (vote_share_accumulates stable LA "LA" 2016 _ 1 _ _).
  - vm_compute. reflexivity.
  - simpl. lia.
Defined.

(** ** The marker of the actual result *)

Lemma draw_trace_cases k self (h : heap) state figsize o c :
  c ∈ trace (draw k self h state figsize o).2 →
  ∃ o', (resolve_options h o).2 = Ok o' ∧
    (c ∈ axes_setup figsize o' ∨
     ∃ y l, y ∈ years self ∧ iteration k self state y = Ok l ∧
            c ∈ draw_curve o' y l).
Proof.
  unfold draw. destruct (resolve_options h o) as [h' [o'|e]]; cbn [snd].
  - rewrite lift_Ok_bind, draw_axes_unfold. cbn [trace].
    intros [H|H]%elem_of_app; exists o'; (split; [done|]); [by left|right].
    apply for_each_trace in H as (y & Hy & H). exists y.
    destruct (draw_year_cases k self state o' y)
      as [(e & _ & E)|(l & Hl & E)]; rewrite E in H; simpl in H.
    + by apply not_elem_of_nil in H.
    + by exists l.
  - simpl. by intros ?%not_elem_of_nil.
Qed.

Lemma draw_scatter_computed k self (h : heap) state figsize o x yv sz color :
  scatter x yv sz color ∈ trace (draw k self h state figsize o).2 →
  ∃ y l, y ∈ years self ∧ iteration k self state y = Ok l ∧
    x = locals.actual_margin l ∧
    yv = div_districts (Z.of_nat (locals.dem_seats l)) (locals.D l).
Proof.
  intros (o' & _ & [H|(y & l & Hy & Hl & H)])%draw_trace_cases.
  - unfold axes_setup in H.
    repeat (apply elem_of_cons in H as [H|H]; [discriminate H|]).
    by apply not_elem_of_nil in H.
  - exists y, l. unfold draw_curve in H.
    apply elem_of_cons in H as [H|H]; [discriminate H|].
    apply elem_of_cons in H as [H|H]; [by injection H as -> -> _ _|].
    repeat (apply elem_of_cons in H as [H|H]; [discriminate H|]).
    by apply not_elem_of_nil in H.
Qed.

Lemma foldl_vote_sums_nonneg cs dem rep sums :
  (∀ c, c ∈ cs → 0 ≤ candidatevotes c) → 0 ≤ dem → 0 ≤ rep →
  sums = foldl (λ '(dem_votes, rep_votes) c,
                  if String.eqb (party c) "democrat"
                  then (dem_votes + candidatevotes c, rep_votes)
                  else (dem_votes, rep_votes + candidatevotes c))
               (dem, rep) cs →
  0 ≤ sums.1 ∧ 0 ≤ sums.2.
Proof.
  intros Hall Hdem Hrep ->. revert dem rep Hdem Hrep.
  induction cs as [|c cs IH]; intros dem rep Hdem Hrep; simpl; [done|].
  assert (0 ≤ candidatevotes c) by (apply Hall; left).
  destruct (String.eqb _ _); apply IH; try lia;
    intros c' Hc'; apply Hall; by right.
Qed.

Lemma actual_margin_bounds dem_votes rep_votes am :
  0 ≤ dem_votes → 0 ≤ rep_votes →
  actual_margin dem_votes rep_votes = Ok am → (-1 <= am <= 1)%Q.
Proof.
  intros Hdem Hrep. unfold actual_margin, true_div.
  destruct (dem_votes + rep_votes =? 0) eqn:E; [done|].
  apply Z.eqb_neq in E. intros [= <-].
  assert (0 < inject_Z (dem_votes + rep_votes))%Q as Hpos.
  { rewrite <- (Zlt_Qlt 0). lia. }
  split.
  - apply Qle_shift_div_l; [done|].
    unfold Qle, Qmult, inject_Z. simpl. lia.
  - apply Qle_shift_div_r; [done|].
    unfold Qle, Qmult, inject_Z. simpl. lia.
Qed.

(** X9. When no row of the state has a negative vote count, the marker
    of every year that [draw] draws is at an actual margin, (dem_votes -
    rep_votes) / (dem_votes + rep_votes), between -1 and 1. *)
Theorem marker_margin_bounds k self (h : heap) state figsize o x yv sz color :
  (∀ c, c ∈ rows (house_data self) → state_po c = state →
        0 ≤ candidatevotes c) →
  scatter x yv sz color ∈ trace (draw k self h state figsize o).2 →
  (-1 <= x <= 1)%Q.
Proof.
  intros Hnonneg (y & l & _ & Hl%iteration_Ok & -> & _)%draw_scatter_computed.
  destruct Hl.
  pose proof (iterrows_votes _ _ _ _ _ _ _ _ computed_iterrows0) as Hsums.
  assert (0 ≤ locals.dem_votes l ∧ 0 ≤ locals.rep_votes l) as [Hdem Hrep].
  { apply (foldl_vote_sums_nonneg (locals.major_party_candidates l) 0 0
             (locals.dem_votes l, locals.rep_votes l)); try done.
    intros c Hc.
    destruct (major_party_candidates_elem_of _ _ _ _ c computed_candidates0 Hc)
      as (? & _ & ? & _).
    by apply Hnonneg. }
  exact (actual_margin_bounds _ _ _ Hdem Hrep computed_actual_margin0).
Qed.

Lemma length_filter_wins_le vote_share :
  (length (filter (λ x, x = true) (wins <$> vote_share))
   ≤ length vote_share)%nat.
Proof.
  etransitivity; [apply length_filter|]. by rewrite length_fmap.
Qed.

Lemma dem_seats_bounds vote_share seats :
  dem_seats vote_share = Ok seats → (1 ≤ seats ≤ length vote_share)%nat.
Proof.
  unfold dem_seats, value_counts_True.
  pose proof (length_filter_wins_le vote_share).
  destruct (length (filter _ _)); [done|]. intros [= <-]. lia.
Qed.

(** X10. The marker of every year that [draw] draws is at the height
    dem_seats / D with 1 <= dem_seats <= D: above 0 and at most 1. *)
Theorem marker_height_bounds k self (h : heap) state figsize o x yv sz color :
  scatter x yv sz color ∈ trace (draw k self h state figsize o).2 →
  ∃ seats D, num_districts self !! state = Some D ∧
    (1 ≤ seats ≤ D)%nat ∧
    yv = (inject_Z (Z.of_nat seats) / inject_Z (Z.of_nat D))%Q ∧
    (0 < yv <= 1)%Q.
Proof.
  intros (y & l & _ & Hl%iteration_Ok & _ & ->)%draw_scatter_computed.
  destruct Hl. exists (locals.dem_seats l), (locals.D l).
  pose proof (dem_seats_bounds _ _ computed_dem_seats0) as Hb.
  rewrite computed_length0 in Hb. split_and!; try done; try lia.
  - unfold div_districts. apply Qlt_shift_div_l.
    + rewrite <- (Zlt_Qlt 0). lia.
    + rewrite Qmult_0_l, <- (Zlt_Qlt 0). lia.
  - unfold div_districts. apply Qle_shift_div_r.
    + rewrite <- (Zlt_Qlt 0). lia.
    + rewrite Qmult_1_l, <- Zle_Qle. lia.
Qed.

(** The marker of [CA] is in the trace. *)
Lemma scatter_CA :
  scatter (0 # 200)%Q (1 # 2)%Q (PInt 200) ["red"]
  ∈ trace (draw stable CA class_heap "CA" (4, 3) no_options).2.
Proof. vm_compute. elem_of_list. Qed.

Lemma marker_margin_bounds_CA : (-1 <= 0 # 200 <= 1)%Q.
Proof.
  refine (marker_margin_bounds stable CA class_heap "CA" (4, 3) no_options
            _ _ _ _ _ scatter_CA).
  intros c Hc _. simpl in Hc.
  repeat (apply elem_of_cons in Hc as [->|Hc]; [simpl; lia|]).
  by apply not_elem_of_nil in Hc.
Defined.

Lemma marker_height_bounds_CA :
  ∃ seats D, num_districts CA !! "CA" = Some D ∧ (1 ≤ seats ≤ D)%nat ∧
    (1 # 2 = inject_Z (Z.of_nat seats) / inject_Z (Z.of_nat D))%Q ∧
    (0 < 1 # 2 <= 1)%Q.
Proof.
  exact (marker_height_bounds stable CA class_heap "CA" (4, 3) no_options
           _ _ _ _ scatter_CA).
Defined.

(** ** The seat shares of a curve *)

Lemma div_districts_le a b D :
  a ≤ b → (div_districts a D <= div_districts b D)%Q.
Proof.
  intros Hab. unfold div_districts, Qdiv. apply Qmult_le_compat_r.
  - by rewrite <- Zle_Qle.
  - apply Qinv_le_0_compat. rewrite <- (Zle_Qle 0). lia.
Qed.

Lemma div_districts_0 D : (div_districts 0 D == 0)%Q.
Proof. unfold div_districts, Qdiv. apply Qmult_0_l. Qed.

Lemma div_districts_diag D :
  (0 < D)%nat → (div_districts (Z.of_nat D) D == 1)%Q.
Proof.
  intros HD. unfold div_districts, Qdiv. apply Qmult_inv_r.
  intros H. apply (proj1 (inject_Z_injective (Z.of_nat D) 0)) in H. lia.
Qed.

Lemma percent_seats_won_lookup D i :
  (i < D + 2)%nat →
  percent_seats_won D !! i
  = Some (div_districts (Z.of_nat (i `min` D)) D).
Proof.
  intros Hi. unfold percent_seats_won, seats_won.
  rewrite list_lookup_fmap.
  destruct (decide (i < D + 1)%nat) as [Hlt|Hge].
  - rewrite lookup_app_l by (rewrite length_seq; lia).
    rewrite lookup_seq_lt by lia. simpl. by rewrite Nat.min_l by lia.
  - rewrite lookup_app_r by (rewrite length_seq; lia).
    rewrite length_seq. replace (i - (D + 1))%nat with 0%nat by lia.
    simpl. by rewrite Nat.min_r by lia.
Qed.

Lemma length_percent_seats_won D : length (percent_seats_won D) = (D + 2)%nat.
Proof.
  unfold percent_seats_won, seats_won.
  rewrite length_fmap, length_app, length_seq. simpl. lia.
Qed.

(** X11. In every call of [draw] for a state with [D] districts, sorted
    by an algorithm of the default kind, every curve has as many seat
    shares as margins, [D + 2]; the share at position [i] is
    [min i D / D]: the shares go from 0 to 1 in steps of 1 / D, never
    down, and the last two are 1. *)
Theorem curve_seat_shares k self (h : heap) state figsize o D
    xs ys alpha color lbl w wh :
  default_kind k →
  num_districts self !! state = Some D →
  step xs ys alpha color lbl w wh
    ∈ trace (draw k self h state figsize o).2 →
  (0 < D)%nat ∧
  length ys = (D + 2)%nat ∧ length xs = length ys ∧
  (∀ i, (i < D + 2)%nat →
     ys !! i = Some (inject_Z (Z.of_nat (i `min` D))
                     / inject_Z (Z.of_nat D))%Q) ∧
  (∀ i j q q', (i ≤ j)%nat → ys !! i = Some q → ys !! j = Some q' →
               (0 <= q)%Q ∧ (q <= q')%Q ∧ (q' <= 1)%Q) ∧
  (∃ q, ys !! 0%nat = Some q ∧ (q == 0)%Q) ∧
  (∃ q, ys !! D = Some q ∧ ys !! S D = Some q ∧ (q == 1)%Q).
Proof.
  intros Hk HD (y & l & _ & Hl%iteration_Ok & -> & -> & _)%draw_step_computed.
  destruct Hl. assert (locals.D l = D) as HDl by congruence.
  rewrite HDl in *. clear HDl.
  assert (0 < D)%nat as Hpos.
  { apply dem_seats_Ok_nonempty in computed_dem_seats0. lia. }
  destruct (extrapolated_margin_sequence k (locals.vote_share l)
              (locals.actual_margin l) Hk) as (Hlen & _).
  rewrite computed_length0 in Hlen.
  split_and!; try done.
  - apply length_percent_seats_won.
  - by rewrite computed_extrapolated_margin0, Hlen, length_percent_seats_won.
  - intros i Hi. by rewrite percent_seats_won_lookup.
  - intros i j q q' Hij Hi Hj.
    assert (j < D + 2)%nat as HjD.
    { apply lookup_lt_Some in Hj. by rewrite length_percent_seats_won in Hj. }
    rewrite percent_seats_won_lookup in Hi, Hj by lia.
    injection Hi as <-. injection Hj as <-. split_and!.
    + rewrite <- (div_districts_0 D). apply div_districts_le. lia.
    + apply div_districts_le. lia.
    + rewrite <- (div_districts_diag D Hpos). apply div_districts_le. lia.
  - eexists. rewrite percent_seats_won_lookup by lia.
    split; [done|]. apply div_districts_0.
  - eexists. rewrite !percent_seats_won_lookup by lia.
    rewrite Nat.min_id, (Nat.min_r (S D)) by lia.
    split_and!; try done. by apply div_districts_diag.
Qed.

Lemma curve_seat_shares_CA :
  let ys := [0 # 2; 1 # 2; 2 # 2; 2 # 2]%Q in
  length ys = (2 + 2)%nat ∧
  (∃ q, ys !! 0%nat = Some q ∧ (q == 0)%Q) ∧
  (∃ q, ys !! 2%nat = Some q ∧ ys !! 3%nat = Some q ∧ (q == 1)%Q).
Proof.
  refine (let H := curve_seat_shares stable CA class_heap "CA" (4, 3)
                     no_options 2 _ _ _ _ _ _ _ stable_default_kind eq_refl
                     step_CA in
          conj (proj1 (proj2 H))
            (proj2 (proj2 (proj2 (proj2 (proj2 H)))))).
Defined.

(** ** The partisan bias counts districts *)

Lemma clip_below_zero x : Qle_bool 0 (clip (-1) 1 x) = Qle_bool 0 x.
Proof.
  unfold clip. destruct (Qle_bool x 1) eqn:E1.
  - destruct (Qle_bool (-1) x) eqn:E2; [done|].
    destruct (Qle_bool 0 x) eqn:E3; [|done].
    apply Qle_bool_iff in E3.
    assert (-1 <= x)%Q as E%Qle_bool_iff by lra. congruence.
  - simpl. symmetry. apply Qle_bool_iff.
    destruct (Qlt_le_dec 1 x) as [?|E%Qle_bool_iff]; [lra|congruence].
Qed.

Lemma first_nonnegative_count xs i :
  StronglySorted Qle xs → first_nonnegative xs i →
  length (filter (λ x, Qle_bool 0 x = false) xs) = i.
Proof.
  intros Hs. revert i.
  induction Hs as [|a xs Hs IH Hall]; intros i [(m & Hm & Hm0) Hfirst].
  - done.
  - destruct i as [|i].
    + injection Hm as ->. rewrite filter_none; [done|].
      intros x [->|Hx]%elem_of_cons.
      * apply Qle_bool_iff in Hm0. congruence.
      * eapply Forall_forall in Hall; [|done].
        assert (0 <= x)%Q as E%Qle_bool_iff by lra. congruence.
    + assert (a < 0)%Q as Ha by by apply (Hfirst 0%nat); [lia|].
      rewrite filter_cons_True.
      * simpl. f_equal. apply IH. split; [by exists m|].
        intros j m' Hj Hm'. apply (Hfirst (S j)); [lia|done].
      * destruct (Qle_bool 0 a) eqn:E; [|done].
        apply Qle_bool_iff in E. lra.
Qed.

Lemma partisan_bias_count k vote_share am D :
  default_kind k →
  partisan_bias D (values (extrapolated_margin k vote_share am))
  = Some (div_districts (Z.of_nat (districts_below_zero vote_share am)) D
          - 0.5)%Q.
Proof.
  intros Hk.
  destruct (extrapolated_margin_first_nonnegative k vote_share am Hk)
    as [i Hi].
  rewrite (partisan_bias_first D _ i Hi). do 3 f_equal.
  apply first_nonnegative_count in Hi; [|by apply sort_values_Sorted].
  unfold extrapolated_margin in Hi.
  rewrite (values_sort_values_Permutation k Hk),
    values_extrapolated_margin_clipped, filter_app, length_app,
    filter_fmap, length_fmap in Hi.
  rewrite (list_filter_iff _
             (λ s, Qle_bool 0 (republican s - democrat s + am) = false))
    in Hi by (intros s; simpl; by rewrite clip_below_zero).
  change (length (filter _ [-1; 1]%Q)) with 1%nat in Hi.
  unfold districts_below_zero. lia.
Qed.

Lemma districts_below_zero_le vote_share am :
  (districts_below_zero vote_share am ≤ length vote_share)%nat.
Proof. apply length_filter. Qed.

Lemma partisan_bias_count_bounds vote_share am :
  (0 < length vote_share)%nat →
  (- (1 # 2)
   <= div_districts (Z.of_nat (districts_below_zero vote_share am))
                    (length vote_share) - 0.5
   <= 1 # 2)%Q.
Proof.
  intros Hpos. set (D := length vote_share).
  set (below := districts_below_zero vote_share am).
  pose proof (districts_below_zero_le vote_share am) as Hle.
  pose proof (div_districts_0 D) as H0.
  pose proof (div_districts_le 0 (Z.of_nat below) D ltac:(lia)) as Hlo.
  pose proof (div_districts_diag D Hpos) as H1.
  pose proof (div_districts_le (Z.of_nat below) (Z.of_nat D) D
                ltac:(fold below in Hle; lia)) as Hhi.
  lra.
Qed.

Lemma values_clipped (s : Series) :
  values ((λ '(l, x), (l, clip (-1) 1 x)) <$> s) = clip (-1) 1 <$> values s.
Proof.
  unfold values. rewrite <- !list_fmap_compose.
  apply list_fmap_ext. by intros _ [l x] _.
Qed.

Lemma below_zero_clip_and_sort k (margins : Series) :
  default_kind k →
  below_zero (values (clip_and_sort k margins))
  = S (below_zero (values margins)).
Proof.
  intros Hk. unfold below_zero, clip_and_sort.
  rewrite (values_sort_values_Permutation k Hk), values_clipped.
  unfold values at 1. rewrite fmap_app. fold (values margins).
  rewrite fmap_app, filter_app, length_app, filter_fmap, length_fmap.
  rewrite (list_filter_iff _ (λ x, Qle_bool 0 x = false))
    by (intros x; simpl; by rewrite clip_below_zero).
  change (length (filter _ (clip (-1) 1 <$> extrema.*2))) with 1%nat. lia.
Qed.

(** The sorted margins of the embedding are [clip_and_sort] of the
    margins of lines 158-160. *)
Lemma extrapolated_margin_clip_and_sort k vote_share am :
  ∃ margins : Series,
    length margins = length vote_share ∧
    extrapolated_margin k vote_share am = clip_and_sort k margins.
Proof.
  eexists. split; [|reflexivity].
  by rewrite length_fmap, length_imap.
Qed.

(** X12. Whatever margins lines 158-160 leave for the districts, once
    they are clipped and sorted with the [extrema] by an algorithm of
    the default kind (lines 161-163), the scan of lines 175-180 leaves
    in [partisan_bias] the number of the margins that are below 0,
    divided by the number of districts, less one half: a value between
    -1/2 and +1/2, the same whatever order the sort gives to equal
    margins. *)
Theorem partisan_bias_counts_districts k (margins : Series) :
  default_kind k →
  let D := length margins in
  let below := below_zero (values margins) in
  let bias := (inject_Z (Z.of_nat below) / inject_Z (Z.of_nat D) - 0.5)%Q in
  partisan_bias D (values (clip_and_sort k margins)) = Some bias ∧
  (below ≤ D)%nat ∧
  ((0 < D)%nat → (- (1 # 2) <= bias <= 1 # 2)%Q).
Proof.
  intros Hk D below bias.
  assert (StronglySorted Qle (values (clip_and_sort k margins))) as Hs
    by by apply sort_values_Sorted.
  assert (1%Q ∈ values (clip_and_sort k margins)) as H1.
  { unfold clip_and_sort.
    rewrite (values_sort_values_Permutation k Hk), values_clipped.
    unfold values. rewrite fmap_app, fmap_app.
    apply elem_of_app. right. simpl. elem_of_list. }
  destruct (first_nonnegative_exists _ 1%Q H1) as [i Hi]; [done|].
  assert (below ≤ D)%nat as Hle.
  { unfold below, below_zero, D. etransitivity; [apply length_filter|].
    unfold values. by rewrite length_fmap. }
  split_and!; [|done|].
  - rewrite (partisan_bias_first D _ i Hi). unfold bias, div_districts.
    do 4 f_equal. apply first_nonnegative_count in Hi; [|done].
    fold (below_zero (values (clip_and_sort k margins))) in Hi.
    rewrite (below_zero_clip_and_sort k margins Hk) in Hi. fold below in Hi.
    lia.
  - intros Hpos. fold (div_districts (Z.of_nat below) D) in bias.
    pose proof (div_districts_0 D) as H0.
    pose proof (div_districts_le 0 (Z.of_nat below) D ltac:(lia)) as Hlo.
    pose proof (div_districts_diag D Hpos) as Hd.
    pose proof (div_districts_le (Z.of_nat below) (Z.of_nat D) D
                  ltac:(lia)) as Hhi.
    unfold bias. fold (div_districts (Z.of_nat below) D). lra.
Qed.

(** One district, whose margin is the float64 value of
    0.45 - 0.55 + 0.1, which is -2^-55: it is below 0, the bias is
    1 - 1/2. *)
Lemma partisan_bias_counts_districts_one :
  partisan_bias 1
    (values (clip_and_sort stable [(LInt 1, -1 # 36028797018963968)%Q]))
  = Some (1 / 1 - 0.5)%Q.
Proof.
  exact (proj1 (partisan_bias_counts_districts stable
                  [(LInt 1, -1 # 36028797018963968)%Q] stable_default_kind)).
Defined.

Lemma round_bounds a b x :
  (inject_Z a <= x <= inject_Z b)%Q → a ≤ round x ≤ b.
Proof.
  intros [Ha Hb].
  assert (a ≤ Qfloor x) as Hfa.
  { rewrite <- (Qfloor_Z a). by apply Qfloor_resp_le. }
  assert (Qfloor x ≤ b) as Hfb.
  { rewrite <- (Qfloor_Z b). by apply Qfloor_resp_le. }
  assert (Qfloor x = b → (x - inject_Z (Qfloor x) ?= 0.5)%Q = Lt) as Hlt.
  { intros E. rewrite E. apply (proj1 (Qlt_alt _ _)). lra. }
  unfold round.
  destruct (x - inject_Z (Qfloor x) ?= 0.5)%Q eqn:E.
  - destruct (Z.even (Qfloor x)); [lia|].
    destruct (decide (Qfloor x = b)) as [Hb'|]; [|lia].
    apply Hlt in Hb'. congruence.
  - lia.
  - destruct (decide (Qfloor x = b)) as [Hb'|]; [|lia].
    apply Hlt in Hb'. congruence.
Qed.

(** X13. In every call of [draw], sorted by an algorithm of the default
    kind, the legend label of every curve drawn is the year of one of
    [self.years], followed by "; D", a signed whole number of percent
    between -50 and +50, and " partisan bias". *)
Theorem legend_percentage_bounds k self (h : heap) state figsize o
    xs ys alpha color lbl w wh :
  default_kind k →
  step xs ys alpha color lbl w wh
    ∈ trace (draw k self h state figsize o).2 →
  ∃ y n, y ∈ years self ∧ -50 ≤ n ≤ 50 ∧
    lbl = str y +:+ "; D" +:+ sign n +:+ " partisan bias".
Proof.
  intros Hk (y & l & Hy & Hl & _ & _ & ->)%draw_step_computed.
  exists y, (round (locals.partisan_bias l * 100)).
  split; [done|]. split; [|done].
  apply iteration_Ok in Hl. destruct Hl.
  rewrite computed_extrapolated_margin0,
    (partisan_bias_count k _ _ _ Hk) in computed_partisan_bias0.
  injection computed_partisan_bias0 as <-. rewrite <- computed_length0.
  pose proof (partisan_bias_count_bounds (locals.vote_share l)
                (locals.actual_margin l)
                (dem_seats_Ok_nonempty _ _ computed_dem_seats0)) as Hb.
  apply round_bounds. change (inject_Z (-50)) with (-50 # 1)%Q.
  change (inject_Z 50) with (50 # 1)%Q. lra.
Qed.

Lemma legend_percentage_bounds_CA :
  ∃ y n, y ∈ years CA ∧ -50 ≤ n ≤ 50 ∧
    "2016; D+0 partisan bias"
    = str y +:+ "; D" +:+ sign n +:+ " partisan bias".
Proof.
  exact (legend_percentage_bounds stable CA class_heap "CA" (4, 3)
           no_options _ _ _ _ _ _ _ stable_default_kind step_CA).
Defined.

(** ** The years of a call, one after the other *)

Lemma curves_cons k self state o y ys :
  curves k self state o (y :: ys)
  = match iteration k self state y with
    | Ok l => draw_curve o y l
    | Raise _ => []
    end ++ curves k self state o ys.
Proof. done. Qed.

Lemma for_each_draw_year_Ok k self state o ys :
  (∀ y, y ∈ ys → ∃ l, iteration k self state y = Ok l) →
  for_each ys (draw_year k self state o)
  = MkM (curves k self state o ys) (Ok ()).
Proof.
  induction ys as [|y ys IH]; intros Hall; [done|].
  destruct (Hall y) as [l Hl]; [left|].
  cbn [for_each]. rewrite curves_cons, Hl.
  destruct (draw_year_cases k self state o y)
    as [(e & He & _)|(l' & Hl' & ->)]; [congruence|].
  assert (l' = l) as -> by congruence.
  unfold mbind at 1, M_bind. cbn [outcome trace].
  rewrite IH; [done|]. intros y' Hy'. apply Hall. by right.
Qed.

Lemma for_each_draw_year_Raise k self state o ys1 y ys2 e :
  (∀ y', y' ∈ ys1 → ∃ l, iteration k self state y' = Ok l) →
  iteration k self state y = Raise e →
  for_each (ys1 ++ y :: ys2) (draw_year k self state o)
  = MkM (curves k self state o ys1) (Raise e).
Proof.
  intros Hall He. induction ys1 as [|y1 ys1 IH].
  - cbn [app for_each]. unfold draw_year. by rewrite He.
  - destruct (Hall y1) as [l Hl]; [left|].
    rewrite <- app_comm_cons. cbn [for_each]. rewrite curves_cons, Hl.
    destruct (draw_year_cases k self state o y1)
      as [(e' & He' & _)|(l' & Hl' & ->)]; [congruence|].
    assert (l' = l) as -> by congruence.
    unfold mbind at 1, M_bind. cbn [outcome trace].
    rewrite IH; [done|]. intros y' Hy'. apply Hall. by right.
Qed.

Lemma for_each_draw_year_Ok_inv k self state o ys :
  outcome (for_each ys (draw_year k self state o)) = Ok () →
  ∀ y, y ∈ ys → ∃ l, iteration k self state y = Ok l.
Proof.
  intros Hok y Hy.
  destruct (draw_year_cases k self state o y)
    as [(e & He & E)|(l & Hl & _)]; [|by exists l].
  destruct (for_each_Raise ys (draw_year k self state o) y e Hy) as [e' He'].
  - by rewrite E.
  - congruence.
Qed.

Lemma length_curves_Ok k self state o ys :
  (∀ y, y ∈ ys → ∃ l, iteration k self state y = Ok l) →
  length (curves k self state o ys) = (3 * length ys)%nat.
Proof.
  induction ys as [|y ys IH]; intros Hall; [done|].
  destruct (Hall y) as [l Hl]; [left|].
  rewrite curves_cons, Hl, length_app, IH.
  - simpl. lia.
  - intros y' Hy'. apply Hall. by right.
Qed.

Lemma draw_resolved k self (h : heap) state figsize o :
  h !! default_draw_values_loc = Some default_draw_values →
  ∃ o', (resolve_options h o).2 = Ok o' ∧
    (draw k self h state figsize o).2
    = MkM (axes_setup figsize o'
           ++ trace (for_each (years self) (draw_year k self state o')))
          (outcome (for_each (years self) (draw_year k self state o'))).
Proof.
  intros Hd. destruct (resolve_options_spec h o Hd) as (o' & _ & E).
  exists o'. unfold draw. rewrite E. split; [done|]. cbn [snd].
  by rewrite lift_Ok_bind, draw_axes_unfold.
Qed.

(** X14. With the class attribute in place, a call of [draw] that
    returns normally has got through the iteration of every year of
    [self.years], and has made the seven calls that set up the axes and
    then, for each year in the order of [self.years], the three calls
    [step], [scatter] and [legend]. *)
Theorem draw_returns k self (h : heap) state figsize o :
  h !! default_draw_values_loc = Some default_draw_values →
  let d := (draw k self h state figsize o).2 in
  outcome d = Ok () →
  ∃ o', (resolve_options h o).2 = Ok o' ∧
    (∀ y, y ∈ years self → ∃ l, iteration k self state y = Ok l) ∧
    trace d = axes_setup figsize o' ++ curves k self state o' (years self) ∧
    length (trace d) = (7 + 3 * length (years self))%nat.
Proof.
  intros Hd d. destruct (draw_resolved k self h state figsize o Hd)
    as (o' & Ho' & E).
  subst d. rewrite E. cbn [outcome trace]. intros Hok.
  pose proof (for_each_draw_year_Ok_inv k self state o' _ Hok) as Hall.
  exists o'. split_and!; [done..| |].
  - by rewrite (for_each_draw_year_Ok k self state o' _ Hall).
  - rewrite (for_each_draw_year_Ok k self state o' _ Hall). cbn [trace].
    by rewrite length_app, (length_curves_Ok k self state o' _ Hall).
Qed.

Lemma draw_returns_CA :
  ∃ o', (resolve_options class_heap no_options).2 = Ok o' ∧
    (∀ y, y ∈ years CA → ∃ l, iteration stable CA "CA" y = Ok l) ∧
    trace (draw stable CA class_heap "CA" (4, 3) no_options).2
    = axes_setup (4, 3) o' ++ curves stable CA "CA" o' (years CA) ∧
    length (trace (draw stable CA class_heap "CA" (4, 3) no_options).2)
    = (7 + 3 * length (years CA))%nat.
Proof.
  exact (draw_returns stable CA class_heap "CA" (4, 3) no_options
           eq_refl eq_refl).
Defined.

(** X15. With the class attribute in place, a call of [draw] stops at
    the first year of [self.years] whose iteration raises, with the
    exception of that iteration: the axes are set up, the curves of the
    years before it are drawn, and nothing is drawn for that year or for
    the years after it. *)
Theorem draw_stops_at_first_failure k self (h : heap) state figsize o
    ys1 y ys2 e :
  h !! default_draw_values_loc = Some default_draw_values →
  years self = ys1 ++ y :: ys2 →
  (∀ y', y' ∈ ys1 → ∃ l, iteration k self state y' = Ok l) →
  iteration k self state y = Raise e →
  ∃ o', (resolve_options h o).2 = Ok o' ∧
    (draw k self h state figsize o).2
    = MkM (axes_setup figsize o' ++ curves k self state o' ys1) (Raise e) ∧
    length (trace (draw k self h state figsize o).2)
    = (7 + 3 * length ys1)%nat.
Proof.
  intros Hd Hyears Hall He.
  destruct (draw_resolved k self h state figsize o Hd) as (o' & Ho' & E).
  exists o'. split; [done|]. rewrite E, Hyears.
  rewrite (for_each_draw_year_Raise k self state o' ys1 y ys2 e Hall He).
  cbn [trace outcome]. split; [done|].
  by rewrite length_app, (length_curves_Ok k self state o' _ Hall).
Qed.

(** [NV] has no democratic candidate in 2018: the curve of 2016 is
    drawn, those of 2018 and 2020 are not. *)
Lemma draw_stops_at_first_failure_NV :
  ∃ o', (resolve_options class_heap no_options).2 = Ok o' ∧
    (draw stable NV class_heap "NV" (4, 3) no_options).2
    = MkM (axes_setup (4, 3) o' ++ curves stable NV "NV" o' [2016])
          (Raise KeyError_True) ∧
    length (trace (draw stable NV class_heap "NV" (4, 3) no_options).2)
    = (7 + 3 * length [2016])%nat.
Proof.
  refine (draw_stops_at_first_failure stable NV class_heap "NV" (4, 3)
            no_options [2016] 2018 [2020] KeyError_True eq_refl eq_refl _ _).
  - intros y' ->%list_elem_of_singleton. eexists. vm_compute. reflexivity.
  - vm_compute. reflexivity.
Defined.

(** ** When a year gets through *)

Lemma dem_seats_Ok_iff vote_share :
  (∃ n, dem_seats vote_share = Ok n) ↔
  ∃ s, s ∈ vote_share ∧ wins s = true.
Proof.
  unfold dem_seats, value_counts_True.
  destruct (filter (λ x, x = true) (wins <$> vote_share)) as [|b bs] eqn:E;
    simpl.
  - split; [by intros [? ?]|]. intros (s & Hs & Hw).
    assert (true ∈ filter (λ x, x = true) (wins <$> vote_share)) as Hin.
    { apply list_elem_of_filter. split; [done|].
      apply list_elem_of_fmap. by exists s. }
    rewrite E in Hin. by apply not_elem_of_nil in Hin.
  - split; [|by eexists]. intros _.
    assert (b ∈ filter (λ x, x = true) (wins <$> vote_share)) as Hin
      by (rewrite E; left).
    apply list_elem_of_filter in Hin as [-> Hin].
    apply list_elem_of_fmap in Hin as (s & Hw & Hs). by exists s.
Qed.

Lemma colors_getitem_Ok_iff colors y :
  (∃ c, colors_getitem colors y = Ok c) ↔ ∃ color, (y, color) ∈ colors.
Proof.
  unfold colors_getitem.
  destruct (filter (λ e, e.1 = y) colors) as [|[y' color] es] eqn:E.
  - split; [by intros [? ?]|]. intros [color Hin].
    assert ((y, color) ∈ filter (λ e, e.1 = y) colors) as Hin'
      by by apply list_elem_of_filter.
    rewrite E in Hin'. by apply not_elem_of_nil in Hin'.
  - split; [|by eexists]. intros _.
    assert ((y', color) ∈ filter (λ e, e.1 = y) colors) as Hin
      by (rewrite E; left).
    apply list_elem_of_filter in Hin as [Hy Hin]. simpl in Hy. subst y'.
    by exists color.
Qed.

Lemma actual_margin_Ok_iff dem_votes rep_votes :
  (∃ am, actual_margin dem_votes rep_votes = Ok am) ↔
  dem_votes + rep_votes ≠ 0.
Proof.
  unfold actual_margin, true_div.
  destruct (Z.eqb_spec (dem_votes + rep_votes) 0) as [E|E].
  - split; [by intros [? ?]|done].
  - split; [done|by eexists].
Qed.

Lemma major_party_candidates_Ok_inv df y state cs :
  major_party_candidates df y state = Ok cs →
  (∀ c, c ∈ filter_columns → c ∈ columns df) ∧
  cs = filter (λ c, year c = y ∧ state_po c = state ∧
                    (party c = "republican" ∨ party c = "democrat"))
              (rows df).
Proof.
  unfold major_party_candidates, getitem_column.
  repeat case_bool_decide; simpl; try done. intros [= <-].
  split; [|done]. intros c Hc. unfold filter_columns in Hc.
  repeat (apply elem_of_cons in Hc as [->|Hc]; [done|]).
  by apply not_elem_of_nil in Hc.
Qed.

Lemma iterrows_body_Ok_columns df st c st' :
  iterrows_body df st c = Ok st' →
  "district" ∈ columns df ∧ "candidatevotes" ∈ columns df ∧
  "totalvotes" ∈ columns df.
Proof.
  destruct st as [[vs dem] rep]. unfold iterrows_body, getitem_column.
  intros H. repeat case_bool_decide; try done; simpl in H;
    by destruct (loc_getitem _ _ _).
Qed.

(** X16. The iteration for a year gets through only if the table has
    the six columns that [draw] reads, the state has a district count
    [D], which is positive, there is a row of the year, the state and a
    major party, every such row has a district in 1..D and a total vote
    that is not 0, the votes of these rows do not add up to 0, and the
    year has a colour; [dem_votes] and [rep_votes] are then the sums of
    the votes of these rows, party by party. *)
Theorem iteration_gets_through k self state y l :
  iteration k self state y = Ok l →
  let cs := filtered_rows self state y in
  (∀ c, c ∈ draw_columns → c ∈ columns (house_data self)) ∧
  num_districts self !! state = Some (locals.D l) ∧ (0 < locals.D l)%nat ∧
  locals.major_party_candidates l = cs ∧ cs ≠ [] ∧
  (∀ c, c ∈ cs →
     1 ≤ district c ≤ Z.of_nat (locals.D l) ∧ totalvotes c ≠ 0) ∧
  (locals.dem_votes l, locals.rep_votes l) = vote_sums cs ∧
  locals.dem_votes l + locals.rep_votes l ≠ 0 ∧
  (∃ color, (y, color) ∈ colors self).
Proof.
  intros Hl%iteration_Ok cs. destruct Hl.
  apply major_party_candidates_Ok_inv in computed_candidates0
    as [Hfilter Hcs].
  fold (filtered_rows self state y) in Hcs. fold cs in Hcs.
  rewrite Hcs in *.
  pose proof (iterrows_votes _ _ _ _ _ _ _ _ computed_iterrows0) as Hv.
  fold (vote_sums cs) in Hv.
  assert (locals.dem_votes l + locals.rep_votes l ≠ 0) as Hsum.
  { apply actual_margin_Ok_iff. by eexists. }
  assert (cs ≠ []) as Hne.
  { intros E. rewrite E in Hv. injection Hv as Hdem Hrep. lia. }
  assert ("district" ∈ columns (house_data self) ∧
          "candidatevotes" ∈ columns (house_data self) ∧
          "totalvotes" ∈ columns (house_data self)) as (H1 & H2 & H3).
  { destruct cs as [|c cs']; [done|]. cbn [iterrows] in computed_iterrows0.
    destruct (iterrows_body _ _ c) as [st'|] eqn:E; [|done].
    by apply iterrows_body_Ok_columns in E. }
  split_and!; try done.
  - intros c Hc. unfold draw_columns in Hc.
    apply elem_of_app in Hc as [Hc|Hc]; [by apply Hfilter|].
    repeat (apply elem_of_cons in Hc as [->|Hc]; [done|]).
    by apply not_elem_of_nil in Hc.
  - apply dem_seats_Ok_nonempty in computed_dem_seats0. lia.
  - rewrite <- (length_zeros (locals.D l)).
    apply (iterrows_Ok_iff (house_data self) _ 0 0); [done..|by eexists].
  - apply (colors_getitem_Ok_iff (colors self) y). by eexists.
Qed.

(** The year 2016 of [NV] gets through. *)
Lemma iteration_gets_through_NV :
  ∃ l, iteration stable NV "NV" 2016 = Ok l ∧
    num_districts NV !! "NV" = Some (locals.D l) ∧
    (locals.dem_votes l, locals.rep_votes l)
    = vote_sums (filtered_rows NV "NV" 2016) ∧
    (∃ color, (2016, color) ∈ colors NV).
Proof.
  eexists. split; [vm_compute; reflexivity|].
  refine (let H := iteration_gets_through stable NV "NV" 2016 _ _ in
          conj (proj1 (proj2 H))
            (conj (proj1 (proj2 (proj2 (proj2 (proj2 (proj2 (proj2 H)))))))
               (proj2 (proj2 (proj2 (proj2 (proj2 (proj2 (proj2 (proj2 H)))))))))).
  vm_compute. reflexivity.
Defined.

(** ** The exceptions of [draw] *)

Lemma major_party_candidates_cases df y state :
  (∃ c, c ∈ filter_columns ∧ (c ∉ columns df) ∧
        major_party_candidates df y state = Raise (KeyError_column c)) ∨
  major_party_candidates df y state
  = Ok (filter (λ c, year c = y ∧ state_po c = state ∧
                     (party c = "republican" ∨ party c = "democrat"))
               (rows df)).
Proof.
  unfold major_party_candidates, getitem_column.
  repeat case_bool_decide; simpl; try (by right);
    left; eexists; (split; [|split; [|done]]); (done || elem_of_list).
Qed.

Lemma iterrows_body_Raise df vs dem rep c e :
  iterrows_body df (vs, dem, rep) c = Raise e →
  (∃ col, col ∈ ["district"; "candidatevotes"; "totalvotes"] ∧
          (col ∉ columns df) ∧ e = KeyError_column col) ∨
  (e = KeyError_district (district c) ∧
   ¬ (1 ≤ district c ≤ Z.of_nat (length vs))) ∨
  (e = ZeroDivisionError_share ∧ totalvotes c = 0).
Proof.
  destruct (decide ("district" ∈ columns df)) as [H1|H1];
    [destruct (decide ("candidatevotes" ∈ columns df)) as [H2|H2];
     [destruct (decide ("totalvotes" ∈ columns df)) as [H3|H3]|]|].
  - rewrite iterrows_body_cases by done.
    destruct (decide (1 ≤ district c ≤ _)) as [Hd|Hd].
    + destruct (decide (totalvotes c = 0)) as [Ht|Ht]; [|done].
      intros [= <-]. by right; right.
    + intros [= <-]. by right; left.
  - unfold iterrows_body, getitem_column.
    rewrite (bool_decide_eq_true_2 _ H1), (bool_decide_eq_true_2 _ H2),
      (bool_decide_eq_false_2 _ H3).
    simpl. destruct (loc_getitem vs (district c) (party c)) as [old|e'] eqn:E;
      simpl.
    + intros [= <-]. left. exists "totalvotes".
      split; [elem_of_list|done].
    + intros [= <-]. rewrite (loc_getitem_Raise _ _ _ _ E). right; left.
      split; [done|]. intros Hd.
      apply (loc_getitem_Ok_iff vs _ (party c)) in Hd as [x Hx]. congruence.
  - unfold iterrows_body, getitem_column.
    rewrite (bool_decide_eq_true_2 _ H1), (bool_decide_eq_false_2 _ H2).
    simpl. destruct (loc_getitem vs (district c) (party c)) as [old|e'] eqn:E;
      simpl.
    + intros [= <-]. left. exists "candidatevotes".
      split; [elem_of_list|done].
    + intros [= <-]. rewrite (loc_getitem_Raise _ _ _ _ E). right; left.
      split; [done|]. intros Hd.
      apply (loc_getitem_Ok_iff vs _ (party c)) in Hd as [x Hx]. congruence.
  - unfold iterrows_body, getitem_column.
    rewrite (bool_decide_eq_false_2 _ H1). simpl.
    intros [= <-]. left. exists "district". split; [elem_of_list|done].
Qed.

Lemma iterrows_Raise_cases df vs dem rep cs e :
  iterrows df (vs, dem, rep) cs = Raise e →
  ∃ c, c ∈ cs ∧
    ((∃ col, col ∈ ["district"; "candidatevotes"; "totalvotes"] ∧
             (col ∉ columns df) ∧ e = KeyError_column col) ∨
     (e = KeyError_district (district c) ∧
      ¬ (1 ≤ district c ≤ Z.of_nat (length vs))) ∨
     (e = ZeroDivisionError_share ∧ totalvotes c = 0)).
Proof.
  revert vs dem rep.
  induction cs as [|c cs IH]; intros vs dem rep; cbn [iterrows]; [done|].
  destruct (iterrows_body df (vs, dem, rep) c) as [[[vs1 dem1] rep1]|e1]
    eqn:E; simpl.
  - intros (c' & Hc' & H)%IH. exists c'. split; [by right|].
    by rewrite (iterrows_body_length _ _ _ _ _ _ _ _ E) in H.
  - intros [= <-]. exists c. split; [left|].
    by apply iterrows_body_Raise in E.
Qed.

Lemma dem_seats_Raise vote_share e :
  dem_seats vote_share = Raise e →
  e = KeyError_True ∧ ∀ s, s ∈ vote_share → wins s = false.
Proof.
  intros H. split.
  - unfold dem_seats, value_counts_True in H.
    destruct (length _); [by injection H|done].
  - intros s Hs. destruct (wins s) eqn:Hw; [|done].
    destruct (proj2 (dem_seats_Ok_iff vote_share)) as [n Hn];
      [by exists s|congruence].
Qed.

Lemma iteration_Raise k self state y e :
  default_kind k →
  iteration k self state y = Raise e → iteration_raises self state y e.
Proof.
  intros Hk. unfold iteration.
  destruct (major_party_candidates_cases (house_data self) y state)
    as [(c & Hc & Hc' & ->)| ->]; simpl.
  { intros [= <-]. simpl. split; [|done].
    unfold draw_columns. apply elem_of_app. by left. }
  fold (filtered_rows self state y). set (cs := filtered_rows self state y).
  unfold num_districts_getitem.
  destruct (num_districts self !! state) as [D|] eqn:HD; simpl;
    [|by intros [= <-]].
  destruct (iterrows _ _ _) as [[[vs dem] rep]|e1] eqn:Hit; simpl.
  2:{ intros [= <-].
      apply iterrows_Raise_cases in Hit as (c & Hc & H).
      rewrite length_zeros in H.
      destruct H as [(col & Hcol & Hcol' & ->)|[[-> Hd]|[-> Ht]]]; simpl.
      - split; [|done]. unfold draw_columns. apply elem_of_app. by right.
      - by exists D, c.
      - by exists c. }
  pose proof (iterrows_votes _ _ _ _ _ _ _ _ Hit) as Hv.
  fold (vote_sums cs) in Hv.
  destruct (actual_margin dem rep) as [am|e1] eqn:Ham; simpl.
  2:{ intros [= <-]. unfold actual_margin, true_div in Ham.
      destruct (Z.eqb_spec (dem + rep) 0) as [E|E]; [|done].
      injection Ham as <-. simpl. fold cs. by rewrite <- Hv. }
  destruct (dem_seats vs) as [seats|e1] eqn:Hseats; simpl.
  2:{ intros [= <-]. apply dem_seats_Raise in Hseats as [-> _]. simpl.
      exists D. split; [done|]. fold cs. rewrite <- Hv. simpl.
      apply actual_margin_Ok_iff. by exists am. }
  destruct (colors_getitem _ _) as [color|e1] eqn:Hcolor; simpl.
  2:{ intros [= <-]. rewrite (colors_getitem_Raise _ _ _ Hcolor). simpl.
      split; [done|]. intros color Hin.
      destruct (proj2 (colors_getitem_Ok_iff (colors self) y)) as [? ?];
        [by exists color|congruence]. }
  by rewrite (partisan_bias_count k _ _ _ Hk).
Qed.

Lemma for_each_outcome_Raise {A} (l : list A) (body : A → M unit) e :
  outcome (for_each l body) = Raise e →
  ∃ x, x ∈ l ∧ outcome (body x) = Raise e.
Proof.
  induction l as [|x l IH]; cbn [for_each]; [done|].
  unfold mbind, M_bind. destruct (outcome (body x)) as [[]|e'] eqn:E; simpl.
  - intros (x' & Hx' & H)%IH. exists x'. split; [by right|done].
  - intros [= <-]. exists x. split; [left|done].
Qed.

Lemma draw_Raise_iteration k self (h : heap) state figsize o e :
  h !! default_draw_values_loc = Some default_draw_values →
  outcome (draw k self h state figsize o).2 = Raise e →
  ∃ y, y ∈ years self ∧ iteration k self state y = Raise e.
Proof.
  intros Hd.
  destruct (draw_resolved k self h state figsize o Hd) as (o' & _ & ->).
  cbn [outcome]. intros (y & Hy & H)%for_each_outcome_Raise.
  exists y. split; [done|].
  destruct (draw_year_cases k self state o' y)
    as [(e' & He' & E)|(l & _ & E)]; rewrite E in H; [|done].
  by injection H as ->.
Qed.

(** X17. With a sorting algorithm of the default kind, what an
    iteration of the loop over the years computes (lines 130-180 and the
    colour of line 188, before anything is drawn for the year) raises
    only one of seven exceptions, each but one for its own cause in the
    instance: a column that [draw] reads is not in the table, the state
    has no district count, a filtered row has a district outside 1..D or
    a total vote of 0, the major-party votes add up to 0, the year has
    no colour; the seventh, the [KeyError] of the seat count, is raised
    only after all the steps before it went through.  The iteration
    never raises for an unassigned [partisan_bias]. *)
Theorem iteration_exceptions k self state y e :
  default_kind k →
  iteration k self state y = Raise e →
  iteration_raises self state y e ∧ e ≠ UnboundLocalError_partisan_bias.
Proof.
  intros Hk He. pose proof (iteration_Raise k _ _ _ _ Hk He) as H.
  split; [done|]. by intros ->.
Qed.

(** The at-large district of [VT] is numbered 0. *)
Lemma iteration_exceptions_VT :
  ∃ D c, num_districts VT !! "VT" = Some D ∧
         c ∈ filtered_rows VT "VT" 2016 ∧
         district c = 0 ∧ ¬ (1 ≤ 0 ≤ Z.of_nat D).
Proof.
  refine (proj1 (iteration_exceptions stable VT "VT" 2016
                   (KeyError_district 0) stable_default_kind _)).
  vm_compute. reflexivity.
Defined.

(** ** What a call reads of the instance *)

Lemma iteration_reads k self self' state y :
  (∀ c, c ∈ draw_columns →
        c ∈ columns (house_data self') ↔ c ∈ columns (house_data self)) →
  num_districts self' !! state = num_districts self !! state →
  filtered_rows self' state y = filtered_rows self state y →
  colors_getitem (colors self') y = colors_getitem (colors self) y →
  iteration k self' state y = iteration k self state y.
Proof.
  intros Hcols HD Hrows Hcolors.
  unfold iteration, major_party_candidates, num_districts_getitem.
  rewrite (getitem_column_ext _ (house_data self) "year"),
    (getitem_column_ext _ (house_data self) "state_po"),
    (getitem_column_ext _ (house_data self) "party")
    by (apply Hcols; unfold draw_columns, filter_columns; elem_of_list).
  fold (filtered_rows self' state y). fold (filtered_rows self state y).
  rewrite Hrows, HD, Hcolors.
  destruct (getitem_column (house_data self) "year"); [|done]. simpl.
  destruct (getitem_column (house_data self) "state_po"); [|done]. simpl.
  destruct (getitem_column (house_data self) "party"); [|done]. simpl.
  destruct (num_districts self !! state); [|done]. simpl.
  by rewrite (iterrows_ext _ (house_data self)).
Qed.

(** X18. A call of [draw] for a state reads of the instance only
    whether the table has the six columns year, state_po, party,
    district, candidatevotes and totalvotes, the district count of the
    state, the years, and for each year the rows of the year, the state
    and a major party and the colours of the year: two instances that
    agree on these leave the same heap and make the same calls on the
    axes with the same outcome, whatever rows of other states, other
    years or other parties their tables hold. *)
Theorem draw_reads k self self' (h : heap) state figsize o :
  (∀ c, c ∈ draw_columns →
        c ∈ columns (house_data self') ↔ c ∈ columns (house_data self)) →
  num_districts self' !! state = num_districts self !! state →
  years self' = years self →
  (∀ y, y ∈ years self →
     filtered_rows self' state y = filtered_rows self state y ∧
     colors_getitem (colors self') y = colors_getitem (colors self) y) →
  draw k self' h state figsize o = draw k self h state figsize o.
Proof.
  intros Hcols HD Hyears Hy. unfold draw.
  destruct (resolve_options h o) as [h' [o'|e]]; [|done].
  f_equal. rewrite !lift_Ok_bind, !draw_axes_unfold, Hyears.
  rewrite (for_each_ext _ (draw_year k self' state o')
             (draw_year k self state o')); [done|].
  intros y [Hrows Hcolors]%Hy. unfold draw_year.
  by rewrite (iteration_reads k self self').
Qed.

Lemma draw_reads_CA :
  draw stable CA_US class_heap "CA" (4, 3) no_options
  = draw stable CA class_heap "CA" (4, 3) no_options.
Proof.
  apply draw_reads.
  - done.
  - vm_compute. reflexivity.
  - reflexivity.
  - intros y ->%list_elem_of_singleton. split; vm_compute; reflexivity.
Defined.

(** ** Reading a label back *)

Lemma to_int_not_nil n :
  Z.to_int n ≠ Decimal.Pos Decimal.Nil ∧ Z.to_int n ≠ Decimal.Neg Decimal.Nil.
Proof.
  destruct n as [|p|p]; simpl; split; try done; intros [= H];
    by apply DecimalPos.Unsigned.to_uint_nonnil in H.
Qed.

Lemma int_of_string_str n : NilZero.int_of_string (str n) = Some (Z.to_int n).
Proof.
  unfold str. destruct (to_int_not_nil n). by apply NilZero.isi.
Qed.

(** X19. [sign] loses nothing of the number: reading the string back,
    with its '+' or '-' and its digits, gives the number again, so that
    different numbers have different strings. *)
Theorem sign_read_back n :
  read_sign (sign n) = Some n ∧ ∀ m, sign m = sign n ↔ m = n.
Proof.
  assert (∀ n, read_sign (sign n) = Some n) as Hread.
  { clear n. intros n. unfold sign. destruct (Z.ltb_spec n 0) as [Hn|Hn].
    - destruct n as [|p|p]; try lia.
      change (str (Z.neg p)) with
        (String "-" (NilZero.string_of_uint (Pos.to_uint p))).
      cbn [read_sign]. change (Ascii.eqb "-"%char "+"%char) with false. cbv iota.
      change (String "-" (NilZero.string_of_uint (Pos.to_uint p)))
        with (str (Z.neg p)).
      rewrite int_of_string_str.
      change (Some (Z.of_int (Z.to_int (Z.neg p))) = Some (Z.neg p)).
      f_equal. apply DecimalZ.of_to.
    - change ("+" +:+ str n) with (String "+" (str n)).
      cbn [read_sign]. change (Ascii.eqb "+"%char "+"%char) with true. cbv iota.
      destruct n as [|p|p]; try lia.
      + done.
      + change (str (Z.pos p)) with (NilZero.string_of_uint (Pos.to_uint p)).
        rewrite NilZero.usu by apply DecimalPos.Unsigned.to_uint_nonnil.
        change (Some (Z.of_uint (Pos.to_uint p)) = Some (Z.pos p)).
        f_equal. unfold Z.of_uint.
        by rewrite DecimalPos.Unsigned.of_to. }
  split; [done|]. intros m. split; [|by intros ->].
  intros E. pose proof (Hread m) as Hm. rewrite E, Hread in Hm. congruence.
Qed.

(** ** The marker and the curve *)

Lemma Qle_bool_cases x y :
  Qle_bool x y = true ∧ (x <= y)%Q ∨ Qle_bool x y = false ∧ (y < x)%Q.
Proof.
  destruct (Qle_bool x y) eqn:E.
  - left. by apply Qle_bool_iff in E.
  - right. split; [done|]. apply Qnot_le_lt. intros H%Qle_bool_iff.
    congruence.
Qed.

(** A district that is won has a clipped margin that is at most the
    actual margin. *)
Lemma won_margin_le s am :
  (-1 <= am)%Q → wins s = true →
  Qle_bool (clip (-1) 1 (republican s - democrat s + am)) am = true.
Proof.
  intros Ha Hw%Qle_bool_iff. apply Qle_bool_iff. unfold clip.
  destruct (Qle_bool_cases (republican s - democrat s + am) 1)
    as [[-> H1]|[-> H1]].
  - destruct (Qle_bool_cases (-1) (republican s - democrat s + am))
      as [[-> H2]|[-> H2]]; lra.
  - change (Qle_bool (-1) 1) with true. cbv iota. lra.
Qed.

Lemma sorted_count_le xs a :
  StronglySorted Qle xs →
  ∀ i x, (i < length (filter (λ x, Qle_bool x a = true) xs))%nat →
         xs !! i = Some x → (x <= a)%Q.
Proof.
  induction 1 as [|a0 xs Hs IH Hall]; simpl; [intros; lia|].
  destruct (Qle_bool_cases a0 a) as [[E Ha0]|[E Ha0]].
  - rewrite filter_cons_True by done. simpl.
    intros [|i] x Hi; simpl; [by intros [= <-]|]. apply IH. lia.
  - rewrite filter_cons_False by congruence.
    rewrite filter_none; [simpl; intros; lia|].
    intros x Hx. eapply Forall_forall in Hall; [|done].
    destruct (Qle_bool_cases x a) as [[_ ?]|[-> _]]; [lra|done].
Qed.

Lemma dem_seats_length vote_share seats :
  dem_seats vote_share = Ok seats →
  seats = length (filter (λ s, wins s = true) vote_share).
Proof.
  unfold dem_seats, value_counts_True.
  rewrite filter_fmap, length_fmap.
  destruct (length _); [done|]. by intros [= <-].
Qed.

Lemma length_filter_impl {A} (P Q : A → Prop) `{!∀ x, Decision (P x)}
    `{!∀ x, Decision (Q x)} (l : list A) :
  (∀ x, P x → Q x) → (length (filter P l) ≤ length (filter Q l))%nat.
Proof.
  intros HPQ. induction l as [|x l IH]; [done|].
  rewrite !filter_cons. destruct (decide (P x)) as [HP|HP].
  - rewrite decide_True by by apply HPQ. simpl. lia.
  - destruct (decide (Q x)); simpl; lia.
Qed.

Lemma count_margins_le k vote_share am :
  default_kind k → (-1 <= am)%Q →
  (S (length (filter (λ s, wins s = true) vote_share))
   ≤ length (filter (λ x, Qle_bool x am = true)
               (values (extrapolated_margin k vote_share am))))%nat.
Proof.
  intros Hk Ha. unfold extrapolated_margin.
  rewrite (values_sort_values_Permutation k Hk),
    values_extrapolated_margin_clipped, filter_app, length_app,
    filter_fmap, length_fmap.
  pose proof (length_filter_impl (λ s, wins s = true)
    (λ s, Qle_bool (clip (-1) 1 (republican s - democrat s + am)) am = true)
    vote_share (λ s, won_margin_le s am Ha)) as Hle.
  rewrite filter_cons_True.
  2:{ destruct (Qle_bool_cases (-1) am) as [[-> _]|[_ ?]]; [done|lra]. }
  simpl. lia.
Qed.

(** X21. In an iteration of [draw] that gets through, sorting with an
    algorithm of the default kind, with an actual margin that is at
    least -1, the marker is not above the curve: the sorted margin at
    position [dem_seats], from which on the step curve (drawn with
    where='post') is at the height dem_seats / D of the marker or
    higher, is at most the actual margin. *)
Theorem marker_under_curve k self state o y l :
  default_kind k →
  iteration k self state y = Ok l →
  (-1 <= locals.actual_margin l)%Q →
  ∃ xs ys alpha color lbl height sz x,
    draw_curve o y l
    = [step xs ys alpha color lbl 3 "post";
       scatter (locals.actual_margin l) height sz color; legend] ∧
    xs !! locals.dem_seats l = Some x ∧
    (x <= locals.actual_margin l)%Q ∧
    ys !! locals.dem_seats l = Some height ∧
    (∀ j q, (locals.dem_seats l ≤ j)%nat → ys !! j = Some q →
            (height <= q)%Q).
Proof.
  intros Hk Hl%iteration_Ok Ha. destruct Hl.
  set (xs := values (locals.extrapolated_margin l)).
  pose proof (dem_seats_bounds _ _ computed_dem_seats0) as Hb.
  pose proof (dem_seats_length _ _ computed_dem_seats0) as Hs.
  rewrite computed_length0 in Hb.
  assert (length xs = (locals.D l + 2)%nat) as Hlen.
  { subst xs. rewrite computed_extrapolated_margin0, <- computed_length0.
    by destruct (extrapolated_margin_sequence k (locals.vote_share l)
                   (locals.actual_margin l) Hk) as [? _]. }
  assert (StronglySorted Qle xs) as Hsorted.
  { subst xs. rewrite computed_extrapolated_margin0.
    by apply sort_values_Sorted. }
  pose proof (sorted_count_le xs (locals.actual_margin l) Hsorted) as Hle.
  assert (S (locals.dem_seats l)
          ≤ length (filter (λ x, Qle_bool x (locals.actual_margin l) = true)
                      xs))%nat as Hc.
  { subst xs. rewrite computed_extrapolated_margin0, Hs.
    by apply count_margins_le. }
  destruct (lookup_lt_is_Some_2 xs (locals.dem_seats l)) as [x Hx]; [lia|].
  exists xs, (percent_seats_won (locals.D l)), (stepalpha o), (locals.color l),
    (legend_label y (locals.partisan_bias l)),
    (div_districts (Z.of_nat (locals.dem_seats l)) (locals.D l)),
    (dotsize o), x.
  split_and!; try done.
  - apply (Hle (locals.dem_seats l)); [lia|done].
  - rewrite percent_seats_won_lookup by lia. by rewrite Nat.min_l by lia.
  - intros j q Hj Hq.
    assert (j < locals.D l + 2)%nat as HjD.
    { apply lookup_lt_Some in Hq. by rewrite length_percent_seats_won in Hq. }
    rewrite percent_seats_won_lookup in Hq by done. injection Hq as <-.
    apply div_districts_le. lia.
Qed.

(** In [CA] the parties are level, each wins one district: the marker
    is at (0, 1/2), and the curve is at 1/2 from the margin -0.2 on. *)
Lemma marker_under_curve_CA :
  ∃ l, iteration stable CA "CA" 2016 = Ok l ∧
  ∃ xs ys alpha color lbl height sz x,
    draw_curve no_options 2016 l
    = [step xs ys alpha color lbl 3 "post";
       scatter (locals.actual_margin l) height sz color; legend] ∧
    xs !! locals.dem_seats l = Some x ∧
    (x <= locals.actual_margin l)%Q ∧
    ys !! locals.dem_seats l = Some height ∧
    (∀ j q, (locals.dem_seats l ≤ j)%nat → ys !! j = Some q →
            (height <= q)%Q).
Proof.
  eexists. split; [vm_compute; reflexivity|].
  apply (marker_under_curve stable CA "CA" no_options 2016 _
           stable_default_kind).
  - vm_compute. reflexivity.
  - vm_compute. discriminate.
Defined.

(** ** The order that the sort gives to equal margins *)



(** ** The colours of an instance *)

Lemma filter_zip_NoDup (ys : list Z) (cs : list string) i y c :
  NoDup ys → ys !! i = Some y → cs !! i = Some c →
  filter (λ e, e.1 = y) (zip ys cs) = [(y, c)].
Proof.
  intros Hnd. revert cs i.
  induction Hnd as [|y0 ys Hy0 Hnd IH]; intros cs i; [done|].
  destruct cs as [|c0 cs]; [done|]. destruct i as [|i]; simpl.
  - intros [= ->] [= ->]. rewrite filter_cons_True by done. f_equal.
    apply filter_none. intros [y' c'] Hin Heq. simpl in Heq. subst y'.
    by apply elem_of_zip_l in Hin.
  - intros Hy Hc. rewrite filter_cons_False; [by eapply IH|].
    simpl. intros ->. by apply list_elem_of_lookup_2 in Hy.
Qed.

(** X20. [__init__] raises at line 49 when the colours and the years
    differ in number.  Otherwise it builds an instance in which every
    year has its colours, among them the colour at the year's own
    position, and exactly that colour when no year is listed twice; no
    call of [draw] on such an instance, with the class attribute in
    place and a sorting algorithm of the default kind, raises the
    [KeyError] of a year without colour. *)
Theorem init_colors read_house_data read_states read_years read_colors :
  let new := __init__ read_house_data read_states read_years read_colors in
  (length read_colors ≠ length read_years →
   new = inl (ValueError_length_mismatch (length read_colors)
                                         (length read_years))) ∧
  (length read_colors = length read_years →
   ∃ self, new = inr self ∧
     house_data self = read_house_data ∧
     num_districts self = read_states ∧ years self = read_years ∧
     (∀ i y, read_years !! i = Some y →
        ∃ c l, read_colors !! i = Some c ∧
               colors_getitem (colors self) y = Ok l ∧ c ∈ l) ∧
     (NoDup read_years → ∀ i y, read_years !! i = Some y →
        ∃ c, read_colors !! i = Some c ∧
             colors_getitem (colors self) y = Ok [c]) ∧
     (∀ k (h : heap) state figsize o y,
        default_kind k →
        h !! default_draw_values_loc = Some default_draw_values →
        outcome (draw k self h state figsize o).2 ≠ Raise (KeyError_year y))).
Proof.
  intros new. subst new. unfold __init__, set_index. split.
  - intros Hne. by rewrite decide_False by done.
  - intros Hlen. rewrite decide_True by done. eexists. split; [done|].
    cbn [house_data num_districts years colors].
    assert (∀ i y, read_years !! i = Some y →
              ∃ c, read_colors !! i = Some c ∧
                   (y, c) ∈ zip read_years read_colors) as Hzip.
    { intros i y Hy.
      destruct (lookup_lt_is_Some_2 read_colors i) as [c Hc].
      { rewrite Hlen. by eapply lookup_lt_Some. }
      exists c. split; [done|]. apply list_elem_of_lookup. exists i.
      apply lookup_zip_Some. by split. }
    split_and!; try done.
    + intros i y Hy. destruct (Hzip i y Hy) as (c & Hc & Hin).
      assert ((y, c) ∈ filter (λ e, e.1 = y) (zip read_years read_colors))
        as Hin' by by apply list_elem_of_filter.
      unfold colors_getitem.
      destruct (filter _ (zip read_years read_colors)) as [|e es] eqn:E;
        [by apply not_elem_of_nil in Hin'|].
      exists c. eexists. split_and!; [done..|].
      apply list_elem_of_fmap. by exists (y, c).
    + intros Hnd i y Hy. destruct (Hzip i y Hy) as (c & Hc & _).
      exists c. split; [done|]. unfold colors_getitem.
      by rewrite (filter_zip_NoDup _ _ i y c).
    + intros k h state figsize o y Hk Hd Hraise.
      apply draw_Raise_iteration in Hraise as (y' & Hy' & He); [|done].
      apply (iteration_Raise k _ _ _ _ Hk) in He as [-> Hnone].
      cbn [years colors] in *.
      apply list_elem_of_lookup in Hy' as [i Hi].
      destruct (Hzip i y' Hi) as (c & _ & Hin). by apply (Hnone c).
Qed.
